(** * Color palette generator: conversions, palette derivation and selection state

    Shallow embedding of [src/components/ColorPaletteGenerator.vue].

    Every JavaScript [number] is an IEEE-754 binary64 value, so the numeric
    code is embedded over Rocq's primitive floats: [+], [-], [*], [/] and the
    comparisons are the machine operations, and [Math.min], [Math.max],
    [Math.round], [%], [parseInt] and [toString(16)] are written out below
    from their ECMAScript definitions.  Integers of the specification are
    injected with [ofZ]. *)

From Stdlib Require Import ZArith List Bool Lia Ascii String.
From Stdlib Require Import Floats.
Import ListNotations.

Set Implicit Arguments.

(* ------------------------------------------------------------------ *)
(** ** JavaScript numbers *)

Module JS.

Local Open Scope float_scope.

Definition number := float.
Bind Scope float_scope with number.

(** The binary64 value nearest to an integer (exact below 2^53). *)
Definition ofZ (z : Z) : number :=
  SF2Prim (binary_normalize prec emax z 0%Z false).

Definition NaN : number := nan.

Definition two52 : number := 4503599627370496.

(** [Math.max(a, b)]: NaN if either is NaN, and +0 is larger than -0. *)
Definition Math_max (a b : number) : number :=
  if a <? b then b
  else if b <? a then a
  else if a =? b then (if get_sign a then b else a)
  else NaN.

(** [Math.min(a, b)]: NaN if either is NaN, and -0 is smaller than +0. *)
Definition Math_min (a b : number) : number :=
  if a <? b then a
  else if b <? a then b
  else if a =? b then (if get_sign a then a else b)
  else NaN.

(** [Math.max(a, b, c)] and [Math.min(a, b, c)] fold from the left. *)
Definition Math_max3 (a b c : number) : number := Math_max (Math_max a b) c.
Definition Math_min3 (a b c : number) : number := Math_min (Math_min a b) c.

(** [Math.round(x)]: the integer nearest to [x], a tie going towards
    +Infinity; NaN, the infinities, the zeros and every |x| >= 2^52 (already
    integral) are returned as they are, and x in [-0.5, 0) gives -0.
    [(a + 2^52) - 2^52] is the integer nearest to [a], ties to even, for
    0 < a < 2^52; the remaining subtraction is exact. *)
Definition Math_round (x : number) : number :=
  if (0 <? x) && (x <? two52) then
    let t := (x + two52) - two52 in
    if x - t =? 0.5 then t + 1 else t
  else if (x <? 0) && (- two52 <? x) then
    let a := - x in
    let t := (a + two52) - two52 in
    if t - a =? 0.5 then - (t - 1) else - t
  else x.

(** [Math.floor(x)], with the same device. *)
Definition Math_floor (x : number) : number :=
  if (0 <? x) && (x <? two52) then
    let t := (x + two52) - two52 in
    if x <? t then t - 1 else t
  else if (x <? 0) && (- two52 <? x) then
    let a := - x in
    let t := (a + two52) - two52 in
    if t <? a then - (t + 1) else - t
  else x.


(** The remainder of two finite non-zero numbers, computed exactly on their
    mantissas and exponents; the result takes the sign of the dividend. *)
Definition rem_exact (x y : number) : number :=
  match Prim2SF x, Prim2SF y with
  | S754_finite sx mx ex, S754_finite _ my ey =>
      let e := Z.min ex ey in
      let X := Z.shiftl (Zpos mx) (ex - e) in
      let Y := Z.shiftl (Zpos my) (ey - e) in
      match Z.modulo X Y with
      | Zpos q => SF2Prim (S754_finite sx q e)
      | _ => if sx then neg_zero else zero
      end
  | _, _ => NaN
  end.

(** [x % y]: NaN when [x] is not finite or [y] is NaN or a zero; [x] when
    [y] is infinite or [x] is a zero; otherwise the exact remainder with the
    sign of [x].  The first two branches are the cases 0 <= x < y and
    y <= x < 2y, where the result is [x] and [x - y] (an exact subtraction). *)
Definition rem (x y : number) : number :=
  if (0 <=? x) && (x <? y) then x
  else if (y <=? x) && (x - y <? y) then x - y
  else if is_nan x || is_nan y || is_infinity x || is_zero y then NaN
  else if is_infinity y || is_zero x then x
  else rem_exact x y.

End JS.

(* ------------------------------------------------------------------ *)
(** ** JavaScript strings, [parseInt(_, 16)] and [toString(16)] *)

Module JSString.

Import JS.
Local Open Scope Z_scope.

(** Code units are modelled by [ascii]; only code units below 256 occur. *)
Definition code (c : ascii) : Z := Z.of_N (N_of_ascii c).

Definition isHexDigit (c : ascii) : bool :=
  let n := code c in
  ((48 <=? n) && (n <=? 57)) || ((65 <=? n) && (n <=? 70))
  || ((97 <=? n) && (n <=? 102)).

(** Value of a hexadecimal digit, for [c] with [isHexDigit c]. *)
Definition hexDigitValue (c : ascii) : Z :=
  let n := code c in
  if n <=? 57 then n - 48 else if n <=? 70 then n - 55 else n - 87.

(** White space that [parseInt] skips (the entries below code 256). *)
Definition isWhiteSpace (c : ascii) : bool :=
  let n := code c in
  ((9 <=? n) && (n <=? 13)) || (n =? 32) || (n =? 160).

Fixpoint trimStart (str : string) : string :=
  match str with
  | String c rest => if isWhiteSpace c then trimStart rest else str
  | EmptyString => EmptyString
  end.

(** Digits of the longest hexadecimal prefix, most significant first;
    [None] when the prefix is empty. *)
Fixpoint hexPrefix (acc : option Z) (str : string) : option Z :=
  match str with
  | String c rest =>
      if isHexDigit c
      then hexPrefix (Some (16 * match acc with Some a => a | None => 0 end
                            + hexDigitValue c)) rest
      else acc
  | EmptyString => acc
  end.

Definition strip0x (str : string) : string :=
  match str with
  | String "0" (String "x" rest) => rest
  | String "0" (String "X" rest) => rest
  | _ => str
  end.

(** [parseInt(str, 16)]: skip white space, read a sign, skip [0x]/[0X],
    read the longest run of hexadecimal digits; NaN when there is none. *)
Definition parseInt16 (str : string) : number :=
  let str := trimStart str in
  let '(neg, str) :=
    match str with
    | String "-" rest => (true, rest)
    | String "+" rest => (false, rest)
    | _ => (false, str)
    end in
  match hexPrefix None (strip0x str) with
  | None => NaN
  | Some v => if neg then (- ofZ v)%float else ofZ v
  end.

(** [str.slice(i, j)] for 0 <= i <= j. *)
Definition slice (i j : nat) (str : string) : string := substring i (j - i) str.

(** [str.replace(/^#/, '')]. *)
Definition stripHash (str : string) : string :=
  match str with
  | String "#" rest => rest
  | _ => str
  end.

Fixpoint allHex (n : nat) (str : string) : bool :=
  match n, str with
  | O, EmptyString => true
  | S n, String c rest => isHexDigit c && allHex n rest
  | _, _ => false
  end.

(** [/^#?[0-9A-Fa-f]{6}$/.test(str)]. *)
Definition hexPattern (str : string) : bool :=
  match str with
  | String "#" rest => allHex 6 rest
  | _ => allHex 6 str
  end.

Definition digitChar (d : Z) : ascii :=
  ascii_of_N (Z.to_N (if d <? 10 then 48 + d else 87 + d)).

Fixpoint hexDigits (fuel : nat) (n : Z) (acc : string) : string :=
  match fuel with
  | O => acc
  | S fuel =>
      let acc := String (digitChar (n mod 16)) acc in
      if n <? 16 then acc else hexDigits fuel (n / 16) acc
  end.

(** [c.toString(16)] for an integer [c]: lowercase digits, no padding, a
    leading minus sign for a negative value. *)
Definition toString16 (c : Z) : string :=
  let digits n := hexDigits (S (Z.to_nat (Z.log2 n))) n EmptyString in
  if c <? 0 then String "-" (digits (- c)) else digits c.

End JSString.

(* ------------------------------------------------------------------ *)
(** ** The component: data *)

Import JS JSString.

(** [interface Color]: [shades], [rowIndex] and [index] are optional. *)
#[warnings="-register-all"]
Inductive Color : Type := mkColor {
  h : number;
  s : number;
  l : number;
  shades : option (list Color);
  rowIndex : option Z;
  index : option Z
}.

(** The object literal [{ h, s, l }]. *)
Definition hsl (h s l : number) : Color := mkColor h s l None None None.

Record RGB : Type := mkRGB { r : number; g : number; b : number }.

(* ------------------------------------------------------------------ *)
(** ** Color conversion utilities *)

Section ColorConverter.

Local Open Scope float_scope.

Definition HSLToRGB (h s l : number) : RGB :=
  let s := s / 100 in
  let l := l / 100 in
  let k := fun n : number => rem (n + h / 30) 12 in
  let a := s * Math_min l (1 - l) in
  let f := fun n : number =>
    l - a * Math_max (-1) (Math_min (k n - 3) (Math_min (9 - k n) 1)) in
  {| r := Math_round (255 * f 0);
     g := Math_round (255 * f 8);
     b := Math_round (255 * f 4) |}.

(** [RGBToHex] receives integers (the results of [Math.round]), on which
    [toString(16)] is defined by [toString16]. *)
Definition toHex (c : Z) : string :=
  let hex := toString16 c in
  if Nat.eqb (String.length hex) 1 then String "0" hex else hex.

Definition RGBToHex (r g b : Z) : string :=
  String "#" (toHex r ++ toHex g ++ toHex b).

(** The body of [hexToHSL] from [const max = ...] on, as a function of the
    three channels [r], [g], [b] (already divided by 255). *)
Definition channelsToHSL (r g b : number) : Color :=
  let max := Math_max3 r g b in
  let min := Math_min3 r g b in
  let l := (max + min) / 2 in
  let '(h, s) :=
    if max =? min then (0, 0)
    else
      let d := max - min in
      let s := if 0.5 <? l then d / (2 - max - min) else d / (max + min) in
      let h :=
        if max =? r then (g - b) / d + (if g <? b then 6 else 0)
        else if max =? g then (b - r) / d + 2
        else if max =? b then (r - g) / d + 4
        else 0 in
      (h / 6, s) in
  hsl (Math_round (h * 360)) (Math_round (s * 100)) (Math_round (l * 100)).

Definition hexToHSL (hex : string) : Color :=
  let hex := stripHash hex in
  let r := parseInt16 (slice 0 2 hex) / 255 in
  let g := parseInt16 (slice 2 4 hex) / 255 in
  let b := parseInt16 (slice 4 6 hex) / 255 in
  channelsToHSL r g b.

End ColorConverter.

(* ------------------------------------------------------------------ *)
(** ** State and methods *)

(** The refs of the component: [baseColor], [palette], [selectedColor],
    [selectedShade] and [hexInput]. *)
Record State : Type := mkState {
  baseColor : Color;
  palette : list Color;
  selectedColor : option Z;
  selectedShade : option Color;
  hexInput : string
}.

Section Methods.

Local Open Scope float_scope.

(** The body of the [for] loop of [generatePalette], from iteration [i] on;
    [n] counts the iterations that remain. *)
Fixpoint paletteLoop (n : nat) (i : Z) (base : Color) (currentHue : number)
    (newPalette : list Color) : list Color :=
  match n with
  | O => newPalette
  | S n =>
      let newPalette :=
        newPalette ++
        [ {| h := rem currentHue 360; s := s base; l := l base;
             shades := Some []; rowIndex := None; index := None |} ] in
      let currentHue :=
        if (i =? 1)%Z then currentHue + 90
        else if (i =? 7)%Z then currentHue + 60
        else currentHue + 30 in
      paletteLoop n (i + 1)%Z base currentHue newPalette
  end.

Definition generatePalette (st : State) : State :=
  let newPalette := paletteLoop 8 0%Z (baseColor st) (h (baseColor st)) [] in
  {| baseColor := baseColor st; palette := newPalette;
     selectedColor := selectedColor st; selectedShade := selectedShade st;
     hexInput := hexInput st |}.

Definition lightnesses : list number := [80; 70; 60; 50; 40].

(** The array [newShades] that [generateShades] builds from [color]. *)
Definition newShades (color : Color) : list Color :=
  let newShades := [] in
  let newShades :=
    newShades ++ map (fun l => hsl (h color) (s color) l) lightnesses in
  let newShades :=
    newShades ++
    map (fun l => hsl (h color) (Math_min 100 (s color + 20)) l) lightnesses in
  let newShades :=
    newShades ++
    map (fun l => hsl (h color) (Math_max 0 (s color - 20)) l) lightnesses in
  newShades.

(** [palette.value[index]]: [undefined] outside of the array. *)
Definition paletteAt (st : State) (index : Z) : option Color :=
  if (index <? 0)%Z then None else nth_error (palette st) (Z.to_nat index).

Definition withShades (c : Color) (sh : list Color) : Color :=
  {| h := h c; s := s c; l := l c; shades := Some sh;
     rowIndex := rowIndex c; index := index c |}.

Fixpoint setNth (n : nat) (f : Color -> Color) (cs : list Color) : list Color :=
  match cs, n with
  | [], _ => []
  | c :: cs, O => f c :: cs
  | c :: cs, S n => c :: setNth n f cs
  end.

Definition generateShades (color : Color) (index : Z) (st : State) : State :=
  let newShades := newShades color in
  match paletteAt st index with
  | Some _ =>
      {| baseColor := baseColor st;
         palette :=
           setNth (Z.to_nat index) (fun c => withShades c newShades) (palette st);
         selectedColor := Some index;
         selectedShade := None;
         hexInput := hexInput st |}
  | None => st
  end.

(** [Object.is] on numbers, the change test of a reactive property. *)
Definition sameValue (x y : number) : bool := PrimFloat.Leibniz.eqb x y.

(** The watcher on [{ ...baseColor }]: it runs [generatePalette] once after
    a handler in which some property of [baseColor] changed. *)
Definition watchBaseColor (old : Color) (st : State) : State :=
  let new := baseColor st in
  if sameValue (h old) (h new) && sameValue (s old) (s new)
     && sameValue (l old) (l new)
  then st else generatePalette st.

(** [Object.assign(baseColor, src)] for a source with [h], [s] and [l]. *)
Definition assignBase (src : Color) (st : State) : State :=
  let base := baseColor st in
  {| baseColor :=
       {| h := h src; s := s src; l := l src; shades := shades base;
          rowIndex := rowIndex base; index := index base |};
     palette := palette st; selectedColor := selectedColor st;
     selectedShade := selectedShade st; hexInput := hexInput st |}.

(** A mutation of [baseColor] followed by the watcher. *)
Definition setBaseColor (src : Color) (st : State) : State :=
  watchBaseColor (baseColor st) (assignBase src st).

Definition handleHexInput (st : State) : State :=
  if hexPattern (hexInput st)
  then setBaseColor (hexToHSL (hexInput st)) st
  else st.

Definition selectShade (shade : Color) (st : State) : State :=
  {| baseColor := baseColor st; palette := palette st;
     selectedColor := selectedColor st; selectedShade := Some shade;
     hexInput := hexInput st |}.

End Methods.

(* ------------------------------------------------------------------ *)
(** ** User interface events *)

(** What the template wires to the state: the three range inputs bound to
    [baseColor.h], [.s], [.l]; the text input bound to [hexInput], with
    [handleHexInput] on every input event; a click on palette entry [i]; a
    click on the shade at position [i] of row [row] of the selected color. *)
Inductive Event : Type :=
  | SlideH (v : number)
  | SlideS (v : number)
  | SlideL (v : number)
  | TypeHex (str : string)
  | ClickColor (i : nat)
  | ClickShade (row i : nat).

Definition withHexInput (str : string) (st : State) : State :=
  {| baseColor := baseColor st; palette := palette st;
     selectedColor := selectedColor st; selectedShade := selectedShade st;
     hexInput := str |}.

(** [shades.slice(5 * row, 5 * row + 5)[i]]. *)
Definition shadeAt (sh : list Color) (row i : nat) : option Color :=
  nth_error (firstn 5 (skipn (5 * row) sh)) i.

(** The shade rows are rendered for [palette[selectedColor].shades] only;
    a click passes [{ ...shade, rowIndex: row, index: i }]. *)
Definition clickShade (row i : nat) (st : State) : State :=
  match selectedColor st with
  | None => st
  | Some sel =>
      match paletteAt st sel with
      | None => st
      | Some c =>
          match shades c with
          | None => st
          | Some sh =>
              match shadeAt sh row i with
              | None => st
              | Some shade =>
                  selectShade
                    {| h := h shade; s := s shade; l := l shade;
                       shades := shades shade;
                       rowIndex := Some (Z.of_nat row);
                       index := Some (Z.of_nat i) |} st
              end
          end
      end
  end.

Definition step (st : State) (e : Event) : State :=
  let base := baseColor st in
  match e with
  | SlideH v => setBaseColor (hsl v (s base) (l base)) st
  | SlideS v => setBaseColor (hsl (h base) v (l base)) st
  | SlideL v => setBaseColor (hsl (h base) (s base) v) st
  | TypeHex str => handleHexInput (withHexInput str st)
  | ClickColor i =>
      match nth_error (palette st) i with
      | Some color => generateShades color (Z.of_nat i) st
      | None => st
      end
  | ClickShade row i => clickShade row i st
  end.

(** The state after setup: the watcher is [immediate]. *)
Definition initialState : State :=
  generatePalette
    {| baseColor := (hsl 45 70 60)%float; palette := []; selectedColor := None;
       selectedShade := None; hexInput := EmptyString |}.

Definition run (es : list Event) : State := fold_left step es initialState.

Inductive reachable : State -> Prop :=
  | reachable_init : reachable initialState
  | reachable_step st e : reachable st -> reachable (step st e).

(** Some property of the base color differs from [src] ([Object.is]). *)
Definition changesBase (src : Color) (st : State) : bool :=
  let base := baseColor st in
  negb (sameValue (h base) (h src) && sameValue (s base) (s src)
        && sameValue (l base) (l src)).

(** The shade that a selection made at [(rowIndex, index)] designates in
    the current palette, if any. *)
Definition designatedShade (st : State) (sel : Color) : option Color :=
  match selectedColor st, rowIndex sel, index sel with
  | Some i, Some row, Some k =>
      match paletteAt st i with
      | Some c =>
          match shades c with
          | Some sh => shadeAt sh (Z.to_nat row) (Z.to_nat k)
          | None => None
          end
      | None => None
      end
  | _, _, _ => None
  end.

(* ------------------------------------------------------------------ *)
(** ** Vocabulary of the specification *)

(** The integers [lo], [lo + 1], ..., [lo + n - 1]. *)
Fixpoint zrange (lo : Z) (n : nat) : list Z :=
  match n with
  | O => []
  | S n => lo :: zrange (lo + 1) n
  end.

(** [x] is an integer between [lo] and [hi]: it lies between the two bounds
    and equals its floor. *)
Definition integerIn (lo hi x : number) : bool :=
  ((lo <=? x) && (x <=? hi) && (Math_floor x =? x))%float.

(** Hue offsets of the eight palette entries, relative to the base hue. *)
Definition hueOffsets : list Z := [0; 30; 120; 150; 180; 210; 240; 270]%Z.

(** The palette entry with hue [hz], and saturation and lightness of [base]. *)
Definition paletteEntry (base : Color) (hz : Z) : Color :=
  {| h := ofZ hz; s := s base; l := l base; shades := Some [];
     rowIndex := None; index := None |}.

(** The five shades of hue [hue] and saturation [sat], lightest first. *)
Definition shadeRow (hue sat : number) : list Color :=
  map (fun lz => hsl hue sat (ofZ lz)) [80; 70; 60; 50; 40]%Z.

(** The lowercase hexadecimal digit of value [d]. *)
Definition lowerHexDigit (d : Z) : ascii :=
  match String.get (Z.to_nat d) "0123456789abcdef" with
  | Some c => c
  | None => "?"%char
  end.

(** [c] written with exactly two lowercase hexadecimal digits. *)
Definition twoHexDigits (c : Z) : string :=
  String (lowerHexDigit (c / 16)) (String (lowerHexDigit (c mod 16)) EmptyString).

(** The base color that event [e] assigns in state [st], if [e] is a field
    edit or a successful parse of the hex input. *)
Definition baseMutation (st : State) (e : Event) : option Color :=
  let base := baseColor st in
  match e with
  | SlideH v => Some (hsl v (s base) (l base))
  | SlideS v => Some (hsl (h base) v (l base))
  | SlideL v => Some (hsl (h base) (s base) v)
  | TypeHex str => if hexPattern str then Some (hexToHSL str) else None
  | ClickColor _ | ClickShade _ _ => None
  end.



(** A channel value [parseInt(..) / 255] for the integer [z]. *)
Definition channel (z : Z) : number := (ofZ z / 255)%float.

(** The 22 characters that [[0-9A-Fa-f]] accepts. *)
Definition hexChars : list ascii :=
  list_ascii_of_string "0123456789ABCDEFabcdef".

(** The integer that the two hexadecimal digits [c1 c2] denote. *)
Definition pairValue (c1 c2 : ascii) : Z :=
  (16 * hexDigitValue c1 + hexDigitValue c2)%Z.

(* ------------------------------------------------------------------ *)
(** ** Exhaustive checks over the 256 channel values *)

Section Sweeps.

Local Open Scope float_scope.

(** The 256 channel values [channel 0], ..., [channel 255], evaluated. *)
Definition channels : list number :=
  Eval vm_compute in map channel (zrange 0 256).

(** The hue computed by [channelsToHSL r g b], given the maximum [mx2] and
    the minimum [mn2] of [r] and [g]: the minimum is below the maximum, and
    the rounded hue is an integer of [0, 360]. *)
Definition hueCheck (r g b mx2 mn2 : number) : bool :=
  let max := Math_max mx2 b in
  let min := Math_min mn2 b in
  if min <=? max then
    if max =? min then true
    else
      let d := max - min in
      let h :=
        if max =? r then (g - b) / d + (if g <? b then 6 else 0)
        else if max =? g then (b - r) / d + 2
        else if max =? b then (r - g) / d + 4
        else 0 in
      integerIn 0 360 (Math_round (h / 6 * 360))
  else false.

Definition hueSweep (T : list number) : bool :=
  forallb (fun r => forallb (fun g =>
    let mx2 := Math_max r g in
    let mn2 := Math_min r g in
    forallb (fun b => hueCheck r g b mx2 mn2) T) T) T.

(** Saturation and lightness that [channelsToHSL] computes from [max] and
    [min], before the rounding. *)
Definition satLight (max min : number) : number * number :=
  let l := (max + min) / 2 in
  let s :=
    if max =? min then 0
    else
      let d := max - min in
      if 0.5 <? l then d / (2 - max - min) else d / (max + min) in
  (s, l).

Definition slCheck (max min : number) : bool :=
  if min <=? max then
    let '(s, l) := satLight max min in
    integerIn 0 100 (Math_round (s * 100))
    && integerIn 0 100 (Math_round (l * 100))
  else true.

Definition slSweep (T : list number) : bool :=
  forallb (fun max => forallb (fun min => slCheck max min) T) T.

End Sweeps.

(* ------------------------------------------------------------------ *)
(** ** Further vocabulary: HSLToRGB over the slider ranges *)

Section ChannelSweeps.

Local Open Scope float_scope.

(** The factor [Math.max(-1, Math.min(k(n) - 3, Math.min(9 - k(n), 1)))] of
    [HSLToRGB], which depends on the hue and on the channel offset [n] only. *)
Definition hueTerm (n h : number) : number :=
  Math_max (-1)
    (Math_min (rem (n + h / 30) 12 - 3) (Math_min (9 - rem (n + h / 30) 12) 1)).

(** The three factors of the integer hue [hz], for red, green and blue. *)
Definition hueTermsOf (hz : Z) : list number :=
  [hueTerm 0 (ofZ hz); hueTerm 8 (ofZ hz); hueTerm 4 (ofZ hz)].

(** A list without repetitions ([Object.is] as the test). *)
Fixpoint dedupe (xs : list number) : list number :=
  match xs with
  | [] => []
  | x :: xs =>
      let rest := dedupe xs in
      if existsb (sameValue x) rest then rest else x :: rest
  end.

(** The values that [hueTerm] takes on the integer hues 0..360. *)
Definition hueTerms : list number :=
  Eval vm_compute in dedupe (flat_map hueTermsOf (zrange 0 361)).

(** The numbers 0, 1, ..., 100 and 0, 1, ..., 360. *)
Definition percents : list number := Eval vm_compute in map ofZ (zrange 0 101).
Definition degrees : list number := Eval vm_compute in map ofZ (zrange 0 361).

(** A channel [Math.round(255 * (l - a * t))] is an integer of [0, 255]. *)
Definition channelCheck (l a t : number) : bool :=
  integerIn 0 255 (Math_round (255 * (l - a * t))).

Definition channelSweep (Ts Ss Ls : list number) : bool :=
  forallb (fun s => forallb (fun l =>
    let lf := l / 100 in
    let a := s / 100 * Math_min lf (1 - lf) in
    forallb (fun t => channelCheck lf a t) Ts) Ls) Ss.

(** With saturation 0 the three channels are equal, and equal to
    [Math.round(255 * (l / 100))]. *)
Definition grayCheck (h l : number) : bool :=
  let o := HSLToRGB h 0 l in
  (r o =? g o) && (g o =? b o) && (r o =? Math_round (255 * (l / 100))).

(** Lightness 0 gives (0, 0, 0) and lightness 100 gives (255, 255, 255). *)
Definition extremeCheck (h s : number) : bool :=
  let o := HSLToRGB h s 0 in
  let w := HSLToRGB h s 100 in
  (r o =? 0) && (g o =? 0) && (b o =? 0)
  && (r w =? 255) && (g w =? 255) && (b w =? 255).

(** Hue 360 gives the channels of hue 0. *)
Definition wrapCheck (s l : number) : bool :=
  let o := HSLToRGB 360 s l in
  let w := HSLToRGB 0 s l in
  (r o =? r w) && (g o =? g w) && (b o =? b w).

(** A check of two arguments on every pair of [Xs] and [Ys]. *)
Definition sweep2 (f : number -> number -> bool) (Xs Ys : list number) : bool :=
  forallb (fun x => forallb (fun y => f x y) Ys) Xs.

End ChannelSweeps.

(* ------------------------------------------------------------------ *)
(** ** Further vocabulary: strings and selection *)

(** [c.toLowerCase()] on the code units A..Z; the others are kept. *)
Definition toLowerAscii (c : ascii) : ascii :=
  let n := code c in
  if ((65 <=? n) && (n <=? 90))%Z then ascii_of_N (Z.to_N (n + 32)) else c.

Fixpoint lowercase (str : string) : string :=
  match str with
  | EmptyString => EmptyString
  | String c rest => String (toLowerAscii c) (lowercase rest)
  end.

(** The color of [c] alone: [{ h, s, l }] without the optional fields. *)
Definition plain (c : Color) : Color := hsl (h c) (s c) (l c).

(** What a click on a shade stores: [{ ...shade, rowIndex: row, index: i }]. *)
Definition tagShade (shade : Color) (row i : nat) : Color :=
  {| h := h shade; s := s shade; l := l shade; shades := shades shade;
     rowIndex := Some (Z.of_nat row); index := Some (Z.of_nat i) |}.

(** The shades stored on a palette entry are none yet (the empty array that
    [generatePalette] puts there) or the 15 shades of the entry itself. *)
Definition ownShades (c : Color) : Prop :=
  (shades c = Some [] \/ shades c = Some (newShades c))
  /\ rowIndex c = None /\ index c = None.

(** A selected shade carries the address of one of the 3 x 5 shades, the
    lightness of its position, and no shades of its own. *)
Definition shadeAddress (sel : Color) : Prop :=
  exists row k : nat,
    rowIndex sel = Some (Z.of_nat row) /\ index sel = Some (Z.of_nat k)
    /\ (row < 3)%nat /\ (k < 5)%nat
    /\ nth_error lightnesses k = Some (l sel)
    /\ shades sel = None.

(** The invariant of the reachable states. *)
Record Consistent (st : State) : Prop := mkConsistent {
  palette_length : List.length (palette st) = 8%nat;
  palette_of_base :
    map plain (palette st) = map plain (palette (generatePalette st));
  palette_shades : Forall ownShades (palette st);
  selectedColor_valid :
    forall i, selectedColor st = Some i -> (0 <= i < 8)%Z;
  selectedShade_valid :
    forall sel, selectedShade st = Some sel ->
      selectedColor st <> None /\ shadeAddress sel
}.

(** The position of [x] in [xs], counted from [i] (numeric equality). *)
Fixpoint positionOf (x : number) (xs : list number) (i : Z) : Z :=
  match xs with
  | [] => i
  | y :: ys => if (x =? y)%float then i else positionOf x ys (i + 1)
  end.

(** The integers of [zs] are pairwise different. *)
Fixpoint distinctZ (zs : list Z) : bool :=
  match zs with
  | [] => true
  | z :: zs => negb (existsb (Z.eqb z) zs) && distinctZ zs
  end.

(** Saturation and lightness of the 15 shades of an integer saturation
    [sz], as pairs of integers, in the order of [newShades]. *)
Definition shadeSpec (sz : Z) : list (Z * Z) :=
  map (fun lz => (sz, lz)) [80; 70; 60; 50; 40]%Z
  ++ map (fun lz => (Z.min 100 (sz + 20), lz)) [80; 70; 60; 50; 40]%Z
  ++ map (fun lz => (Z.max 0 (sz - 20), lz)) [80; 70; 60; 50; 40]%Z.

Definition pairEqb (p q : Z * Z) : bool :=
  ((fst p =? fst q) && (snd p =? snd q))%Z.

(** The pairs of [ps] are pairwise different. *)
Fixpoint distinctPairs (ps : list (Z * Z)) : bool :=
  match ps with
  | [] => true
  | p :: ps => negb (existsb (pairEqb p) ps) && distinctPairs ps
  end.

(* ------------------------------------------------------------------ *)
(** ** Finite ranges *)

Lemma zrange_In (n : nat) : forall lo z,
  (lo <= z < lo + Z.of_nat n)%Z -> In z (zrange lo n).
Proof.
  induction n as [|n IH]; intros lo z Hz; [lia|].
  cbn [zrange]. destruct (Z.eq_dec lo z) as [->|Hne]; [now left|].
  right. apply IH. lia.
Qed.

Lemma forallb_zrange (P : Z -> bool) (lo : Z) (n : nat) :
  forallb P (zrange lo n) = true ->
  forall z, (lo <= z < lo + Z.of_nat n)%Z -> P z = true.
Proof.
  intros Hall z Hz. rewrite forallb_forall in Hall.
  apply Hall, zrange_In, Hz.
Qed.

Lemma Forall_zrange (P : Z -> Prop) (lo : Z) (n : nat) :
  Forall P (zrange lo n) ->
  forall z, (lo <= z < lo + Z.of_nat n)%Z -> P z.
Proof.
  intros Hall z Hz. rewrite Forall_forall in Hall.
  apply Hall, zrange_In, Hz.
Qed.

(** Proves [Forall P (zrange lo n)] for a closed range, one element at a
    time, each by evaluation. *)
Ltac forall_range :=
  match goal with
  | |- Forall _ (zrange ?lo ?n) =>
      let xs := eval vm_compute in (zrange lo n) in
      change (zrange lo n) with xs
  end;
  repeat (apply Forall_cons; [vm_compute; reflexivity|]);
  apply Forall_nil.

(* ------------------------------------------------------------------ *)
(** ** generatePalette *)

Lemma paletteLoop_unfold (base : Color) (cur : number) :
  paletteLoop 8 0 base cur [] =
  map (fun hue => {| h := hue; s := s base; l := l base; shades := Some [];
                     rowIndex := None; index := None |})
      [ rem cur 360;
        rem (cur + 30) 360;
        rem (cur + 30 + 90) 360;
        rem (cur + 30 + 90 + 30) 360;
        rem (cur + 30 + 90 + 30 + 30) 360;
        rem (cur + 30 + 90 + 30 + 30 + 30) 360;
        rem (cur + 30 + 90 + 30 + 30 + 30 + 30) 360;
        rem (cur + 30 + 90 + 30 + 30 + 30 + 30 + 30) 360 ]%float.
Proof. reflexivity. Qed.

Lemma palette_hues (hz : Z) :
  (0 <= hz <= 360)%Z ->
  [ rem (ofZ hz) 360;
    rem (ofZ hz + 30) 360;
    rem (ofZ hz + 30 + 90) 360;
    rem (ofZ hz + 30 + 90 + 30) 360;
    rem (ofZ hz + 30 + 90 + 30 + 30) 360;
    rem (ofZ hz + 30 + 90 + 30 + 30 + 30) 360;
    rem (ofZ hz + 30 + 90 + 30 + 30 + 30 + 30) 360;
    rem (ofZ hz + 30 + 90 + 30 + 30 + 30 + 30 + 30) 360 ]%float
  = map (fun d => ofZ ((hz + d) mod 360)) hueOffsets.
Proof.
  intros Hz. pattern hz.
  apply (@Forall_zrange _ 0 361); [forall_range | lia].
Qed.

(** C1. For a base color whose hue is an integer [hz] of [0, 360],
    [generatePalette] stores exactly 8 colors; the color at index i has the
    saturation and lightness of the base, an empty shade list, and the hue
    [(hz + d_i) mod 360] for the offsets 0, 30, 120, 150, 180, 210, 240, 270.
    For the initial base color (45, 70, 60) the hues are
    45, 75, 165, 195, 225, 255, 285, 315. *)
Theorem generatePalette_hues (st : State) (hz : Z) :
  (0 <= hz <= 360)%Z ->
  h (baseColor st) = ofZ hz ->
  palette (generatePalette st)
    = map (fun d => paletteEntry (baseColor st) ((hz + d) mod 360)) hueOffsets
  /\ List.length (palette (generatePalette st)) = 8%nat
  /\ Forall (fun c => s c = s (baseColor st) /\ l c = l (baseColor st))
       (palette (generatePalette st))
  /\ map h (palette initialState)
       = map ofZ [45; 75; 165; 195; 225; 255; 285; 315]%Z.
Proof.
  intros Hz Hh.
  assert (Hpal : palette (generatePalette st)
            = map (fun d => paletteEntry (baseColor st) ((hz + d) mod 360))
                hueOffsets).
  { cbn [generatePalette palette]. rewrite paletteLoop_unfold, Hh.
    rewrite (palette_hues Hz). rewrite map_map. reflexivity. }
  split; [exact Hpal|]. rewrite Hpal. split; [reflexivity|]. split.
  - apply Forall_forall. intros c Hc. apply in_map_iff in Hc.
    destruct Hc as [d [<- _]]. split; reflexivity.
  - vm_compute. reflexivity.
Qed.

Lemma generatePalette_hues_witness :
  palette (generatePalette initialState)
    = map (fun d => paletteEntry (baseColor initialState) ((45 + d) mod 360))
        hueOffsets
  /\ List.length (palette (generatePalette initialState)) = 8%nat
  /\ Forall (fun c => s c = s (baseColor initialState)
                      /\ l c = l (baseColor initialState))
       (palette (generatePalette initialState))
  /\ map h (palette initialState)
       = map ofZ [45; 75; 165; 195; 225; 255; 285; 315]%Z.
Proof.
  apply (@generatePalette_hues initialState 45); [lia | vm_compute; reflexivity].
Defined.

(* ------------------------------------------------------------------ *)
(** ** generateShades *)

Lemma newShades_unfold (c : Color) :
  newShades c =
    map (fun l => hsl (h c) (s c) l) lightnesses
    ++ map (fun l => hsl (h c) (Math_min 100 (s c + 20))%float l) lightnesses
    ++ map (fun l => hsl (h c) (Math_max 0 (s c - 20))%float l) lightnesses.
Proof. reflexivity. Qed.

Lemma lightnesses_integers : lightnesses = map ofZ [80; 70; 60; 50; 40]%Z.
Proof. vm_compute. reflexivity. Qed.

Lemma saturation_levels (sz : Z) :
  (0 <= sz <= 100)%Z ->
  (Math_min 100 (ofZ sz + 20), Math_max 0 (ofZ sz - 20))%float
  = (ofZ (Z.min 100 (sz + 20)), ofZ (Z.max 0 (sz - 20))).
Proof.
  intros Hz. pattern sz.
  apply (@Forall_zrange _ 0 101); [forall_range | lia].
Qed.

Lemma paletteAt_Some (st : State) (i : Z) (c : Color) :
  paletteAt st i = Some c ->
  (0 <= i)%Z /\ nth_error (palette st) (Z.to_nat i) = Some c.
Proof.
  unfold paletteAt. destruct (i <? 0)%Z eqn:Hi; [discriminate|].
  intros H. split; [lia | exact H].
Qed.

Lemma paletteAt_None (st : State) (i : Z) :
  paletteAt st i = None <->
  (i < 0 \/ Z.of_nat (List.length (palette st)) <= i)%Z.
Proof.
  unfold paletteAt. destruct (i <? 0)%Z eqn:Hi.
  - split; [intros _; left; lia | reflexivity].
  - rewrite nth_error_None. split; [intros H; right; lia | intros [H|H]; lia].
Qed.

Lemma nth_error_setNth (f : Color -> Color) (cs : list Color) : forall n,
  nth_error (setNth n f cs) n = option_map f (nth_error cs n).
Proof.
  induction cs as [|c cs IH]; intros [|n]; cbn; auto.
Qed.

Lemma length_setNth (f : Color -> Color) (cs : list Color) : forall n,
  List.length (setNth n f cs) = List.length cs.
Proof.
  induction cs as [|c cs IH]; intros [|n]; cbn; auto.
Qed.

(** C2. For a color whose saturation is an integer [sz] of [0, 100] (the
    lightness of the color plays no part), [generateShades] builds exactly
    15 colors, all of the hue of the color: entries 0-4 have saturation
    [sz], entries 5-9 have [min(100, sz + 20)], entries 10-14 have
    [max(0, sz - 20)], and each group has the lightnesses 80, 70, 60, 50,
    40 in that order.  On an index of the palette the 15 colors become the
    shades of that entry. *)
Theorem generateShades_groups (c : Color) (sz : Z) (st : State) (i : Z) :
  (0 <= sz <= 100)%Z ->
  s c = ofZ sz ->
  (0 <= i < Z.of_nat (List.length (palette st)))%Z ->
  newShades c
    = shadeRow (h c) (ofZ sz)
      ++ shadeRow (h c) (ofZ (Z.min 100 (sz + 20)))
      ++ shadeRow (h c) (ofZ (Z.max 0 (sz - 20)))
  /\ List.length (newShades c) = 15%nat
  /\ Forall (fun x => h x = h c) (newShades c)
  /\ option_map shades (paletteAt (generateShades c i st) i)
       = Some (Some (newShades c)).
Proof.
  intros Hz Hs Hi.
  assert (Hnew : newShades c
            = shadeRow (h c) (ofZ sz)
              ++ shadeRow (h c) (ofZ (Z.min 100 (sz + 20)))
              ++ shadeRow (h c) (ofZ (Z.max 0 (sz - 20)))).
  { rewrite newShades_unfold, Hs.
    pose proof (saturation_levels Hz) as Hlv.
    injection Hlv as -> ->.
    unfold shadeRow. rewrite lightnesses_integers, !map_map. reflexivity. }
  split; [exact Hnew|]. split; [rewrite Hnew; reflexivity|]. split.
  - rewrite Hnew. unfold shadeRow.
    repeat (apply Forall_app; split); apply Forall_forall;
      intros x Hx; apply in_map_iff in Hx; destruct Hx as [lz [<- _]];
      reflexivity.
  - unfold generateShades. destruct (paletteAt st i) as [pc|] eqn:Hat;
      [|apply paletteAt_None in Hat; lia].
    apply paletteAt_Some in Hat. destruct Hat as [Hpos Hnth].
    unfold paletteAt. cbn [palette].
    destruct (i <? 0)%Z eqn:Hneg; [apply Z.ltb_lt in Hneg; lia|].
    rewrite nth_error_setNth, Hnth. reflexivity.
Qed.

Lemma generateShades_groups_witness :
  newShades (hsl 200 50 60)%float
    = shadeRow (h (hsl 200 50 60)%float) (ofZ 50)
      ++ shadeRow (h (hsl 200 50 60)%float) (ofZ (Z.min 100 (50 + 20)))
      ++ shadeRow (h (hsl 200 50 60)%float) (ofZ (Z.max 0 (50 - 20)))
  /\ List.length (newShades (hsl 200 50 60)%float) = 15%nat
  /\ Forall (fun x => h x = h (hsl 200 50 60)%float)
       (newShades (hsl 200 50 60)%float)
  /\ option_map shades
       (paletteAt (generateShades (hsl 200 50 60)%float 3 initialState) 3)
       = Some (Some (newShades (hsl 200 50 60)%float)).
Proof.
  apply (@generateShades_groups (hsl 200 50 60)%float 50 initialState 3);
    [lia | vm_compute; reflexivity | split; [lia | vm_compute; reflexivity]].
Defined.

(* ------------------------------------------------------------------ *)
(** ** RGBToHex *)

Lemma toHex_twoHexDigits (c : Z) :
  (0 <= c <= 255)%Z -> toHex c = twoHexDigits c.
Proof.
  intros Hc. apply String.eqb_eq.
  apply (@forallb_zrange (fun c => String.eqb (toHex c) (twoHexDigits c)) 0 256);
    [vm_compute; reflexivity | lia].
Qed.

Lemma length_twoHexDigits (c : Z) : String.length (twoHexDigits c) = 2%nat.
Proof. reflexivity. Qed.

Lemma string_length_app (a b : string) :
  String.length (a ++ b) = (String.length a + String.length b)%nat.
Proof. induction a as [|c a IH]; cbn; [reflexivity | now rewrite IH]. Qed.

(** C9. For integers [rz], [gz], [bz] of [0, 255], [RGBToHex] returns the
    character '#' followed by each channel written with exactly two
    lowercase, zero-padded hexadecimal digits, in the order r, g, b: a
    string of length 7. *)
Theorem RGBToHex_format (rz gz bz : Z) :
  (0 <= rz <= 255)%Z -> (0 <= gz <= 255)%Z -> (0 <= bz <= 255)%Z ->
  RGBToHex rz gz bz
    = String "#" (twoHexDigits rz ++ twoHexDigits gz ++ twoHexDigits bz)
  /\ String.length (RGBToHex rz gz bz) = 7%nat.
Proof.
  intros Hr Hg Hb. unfold RGBToHex.
  rewrite !toHex_twoHexDigits by assumption.
  split; [reflexivity|].
  cbn [String.length]. rewrite !string_length_app, !length_twoHexDigits.
  reflexivity.
Qed.

Lemma RGBToHex_format_witness :
  RGBToHex 10 255 0
    = String "#" (twoHexDigits 10 ++ twoHexDigits 255 ++ twoHexDigits 0)
  /\ String.length (RGBToHex 10 255 0) = 7%nat.
Proof. apply (@RGBToHex_format 10 255 0); lia. Defined.

(* ------------------------------------------------------------------ *)
(** ** Selection state *)

(** C7. Whenever the palette has an entry at [i] (0 <= i < length),
    [generateShades] for index [i] selects [i] and sets the selected shade
    to none, whatever was selected before; a click on entry [i] does the
    same. *)
Theorem generateShades_selects (st : State) (color : Color) (i : Z) :
  (0 <= i < Z.of_nat (List.length (palette st)))%Z ->
  selectedColor (generateShades color i st) = Some i
  /\ selectedShade (generateShades color i st) = None
  /\ (forall n, Z.of_nat n = i ->
        selectedColor (step st (ClickColor n)) = Some i
        /\ selectedShade (step st (ClickColor n)) = None).
Proof.
  intros Hi. unfold generateShades.
  destruct (paletteAt st i) as [pc|] eqn:Hpc;
    [|apply paletteAt_None in Hpc; lia].
  split; [reflexivity|]. split; [reflexivity|].
  intros n <-. cbn [step].
  apply paletteAt_Some in Hpc. destruct Hpc as [_ Hnth].
  rewrite Nat2Z.id in Hnth. rewrite Hnth. unfold generateShades, paletteAt.
  destruct (Z.of_nat n <? 0)%Z eqn:Hneg; [apply Z.ltb_lt in Hneg; lia|].
  rewrite Nat2Z.id, Hnth. split; reflexivity.
Qed.

Lemma generateShades_selects_witness :
  selectedColor
    (generateShades (hsl 1 2 3)%float 3
       (run [ClickColor 5; ClickShade 2 4])) = Some 3%Z
  /\ selectedShade
       (generateShades (hsl 1 2 3)%float 3
          (run [ClickColor 5; ClickShade 2 4])) = None
  /\ (forall n, Z.of_nat n = 3%Z ->
        selectedColor (step (run [ClickColor 5; ClickShade 2 4]) (ClickColor n))
          = Some 3%Z
        /\ selectedShade
             (step (run [ClickColor 5; ClickShade 2 4]) (ClickColor n)) = None).
Proof.
  apply (@generateShades_selects (run [ClickColor 5; ClickShade 2 4])
           (hsl 1 2 3)%float 3).
  split; [lia | vm_compute; reflexivity].
Defined.

(** C10. When the palette has no entry at [i] ([i] negative, or [i] at
    least the length of the palette, which covers the empty palette),
    [generateShades] leaves the whole state as it was: the function is
    total, and palette, selected index and selected shade keep their
    values. *)
Theorem generateShades_no_entry (st : State) (color : Color) (i : Z) :
  (i < 0 \/ Z.of_nat (List.length (palette st)) <= i)%Z ->
  generateShades color i st = st.
Proof.
  intros Hi. apply paletteAt_None in Hi.
  unfold generateShades. rewrite Hi. reflexivity.
Qed.

Lemma generateShades_no_entry_witness :
  generateShades (hsl 1 2 3)%float 8 (run [ClickColor 5; ClickShade 2 4])
  = run [ClickColor 5; ClickShade 2 4].
Proof.
  apply (@generateShades_no_entry (run [ClickColor 5; ClickShade 2 4])
           (hsl 1 2 3)%float 8).
  right. vm_compute. discriminate.
Defined.

Lemma run_reachable (es : list Event) : reachable (run es).
Proof.
  unfold run.
  assert (H : forall st, reachable st -> reachable (fold_left step es st)).
  { induction es as [|e es IH]; intros st Hst; cbn [fold_left];
      [exact Hst | apply IH, reachable_step, Hst]. }
  apply H, reachable_init.
Qed.

Lemma setBaseColor_changed (src : Color) (st : State) :
  changesBase src st = true ->
  setBaseColor src st = generatePalette (assignBase src st).
Proof.
  unfold changesBase, setBaseColor, watchBaseColor. cbn [assignBase baseColor h s l].
  intros H. apply negb_true_iff in H. rewrite H. reflexivity.
Qed.

(** What a mutating event does: the hex input, when the event carries one,
    is stored first, then the base color is assigned and watched. *)
Lemma step_mutation (st : State) (e : Event) (src : Color) :
  baseMutation st e = Some src ->
  exists str, step st e = setBaseColor src (withHexInput str st).
Proof.
  destruct st as [base pal sc ss hx].
  destruct e as [v|v|v|str|n|row n]; cbn [baseMutation step baseColor];
    try discriminate.
  - intros [= <-]. exists hx. reflexivity.
  - intros [= <-]. exists hx. reflexivity.
  - intros [= <-]. exists hx. reflexivity.
  - unfold handleHexInput. cbn [withHexInput hexInput].
    destruct (hexPattern str); [|discriminate].
    intros [= <-]. exists str. reflexivity.
Qed.

Lemma paletteLoop_length (base : Color) (cur : number) :
  List.length (paletteLoop 8 0 base cur []) = 8%nat.
Proof. rewrite paletteLoop_unfold. reflexivity. Qed.

Lemma paletteLoop_shades (base : Color) (cur : number) :
  Forall (fun c => shades c = Some []) (paletteLoop 8 0 base cur []).
Proof.
  rewrite paletteLoop_unfold. apply Forall_forall. intros c Hc.
  apply in_map_iff in Hc. destruct Hc as [hue [<- _]]. reflexivity.
Qed.

(** State after a mutation that changes the base color. *)
Lemma step_mutation_changed (st : State) (e : Event) (src : Color) :
  baseMutation st e = Some src ->
  changesBase src st = true ->
  selectedColor (step st e) = selectedColor st
  /\ selectedShade (step st e) = selectedShade st
  /\ h (baseColor (step st e)) = h src
  /\ s (baseColor (step st e)) = s src
  /\ l (baseColor (step st e)) = l src
  /\ palette (step st e)
     = paletteLoop 8 0 (baseColor (step st e)) (h src) [].
Proof.
  intros Hm Hc. destruct (step_mutation st e Hm) as [str ->].
  rewrite setBaseColor_changed by exact Hc.
  repeat split; reflexivity.
Qed.

(** C8. A mutation of the base color (a field edit or a successful parse of
    the hex input, with a value that differs from the current one) leaves
    the selected palette index as it was, while the palette is regenerated
    from the new base color. *)
Theorem base_mutation_keeps_selectedColor (st : State) (e : Event) (src : Color) :
  baseMutation st e = Some src ->
  changesBase src st = true ->
  selectedColor (step st e) = selectedColor st
  /\ palette (step st e)
     = paletteLoop 8 0 (baseColor (step st e)) (h (baseColor (step st e))) []
  /\ List.length (palette (step st e)) = 8%nat.
Proof.
  intros Hm Hc.
  destruct (step_mutation_changed st e Hm Hc) as (Hsc & _ & Hh & _ & _ & Hp).
  split; [exact Hsc|]. rewrite Hh. split; [exact Hp|].
  rewrite Hp. apply paletteLoop_length.
Qed.

Lemma base_mutation_keeps_selectedColor_witness :
  selectedColor (step (run [ClickColor 3; ClickShade 1 2]) (SlideH 200))
    = selectedColor (run [ClickColor 3; ClickShade 1 2])
  /\ palette (step (run [ClickColor 3; ClickShade 1 2]) (SlideH 200))
     = paletteLoop 8 0
         (baseColor (step (run [ClickColor 3; ClickShade 1 2]) (SlideH 200)))
         (h (baseColor (step (run [ClickColor 3; ClickShade 1 2]) (SlideH 200))))
         []
  /\ List.length (palette (step (run [ClickColor 3; ClickShade 1 2]) (SlideH 200)))
     = 8%nat.
Proof.
  apply (@base_mutation_keeps_selectedColor
           (run [ClickColor 3; ClickShade 1 2]) (SlideH 200)
           (hsl 200 70 60)%float);
    vm_compute; reflexivity.
Defined.


Lemma shadeAt_nil (row i : nat) : shadeAt [] row i = None.
Proof.
  unfold shadeAt. rewrite skipn_nil. cbn [firstn]. now destruct i.
Qed.



(* ------------------------------------------------------------------ *)
(** ** Hex strings *)

Lemma isHexDigit_In (c : ascii) : isHexDigit c = true -> In c hexChars.
Proof.
  intros H.
  destruct c as [[] [] [] [] [] [] [] []]; vm_compute in H;
    try discriminate H; vm_compute;
    repeat (first [left; reflexivity | right]).
Qed.

Lemma hexChar_not_hash (c : ascii) (rest : string) :
  In c hexChars ->
  stripHash (String c rest) = String c rest
  /\ hexPattern (String c rest) = allHex 6 (String c rest).
Proof.
  unfold hexChars. cbn [list_ascii_of_string In]. intros H.
  repeat (destruct H as [<-|H]; [split; reflexivity|]). contradiction.
Qed.

Lemma allHex_inv (str : string) :
  allHex 6 str = true ->
  exists c1 c2 c3 c4 c5 c6,
    str = String c1 (String c2 (String c3 (String c4 (String c5
            (String c6 EmptyString)))))
    /\ In c1 hexChars /\ In c2 hexChars /\ In c3 hexChars
    /\ In c4 hexChars /\ In c5 hexChars /\ In c6 hexChars.
Proof.
  intros H.
  destruct str as [|c1 [|c2 [|c3 [|c4 [|c5 [|c6 [|c7 rest]]]]]]];
    cbn [allHex] in H;
    repeat match type of H with
           | (_ && _)%bool = true =>
               let Hc := fresh "Hc" in
               apply andb_true_iff in H; destruct H as [Hc H]
           end;
    try discriminate H.
  exists c1, c2, c3, c4, c5, c6.
  repeat split; auto using isHexDigit_In.
Qed.

Lemma hexPattern_inv (str : string) :
  hexPattern str = true ->
  exists six, allHex 6 six = true /\ (str = six \/ str = String "#" six).
Proof.
  destruct str as [|c rest]; [discriminate|].
  destruct (ascii_dec c "#") as [->|Hne].
  - cbn [hexPattern]. intros H. exists rest. auto.
  - intros H. exists (String c rest). split; [|now left].
    revert H.
    destruct c as [[] [] [] [] [] [] [] []]; try (intros H; exact H).
    now contradiction Hne.
Qed.

Lemma parseInt16_pair (c1 c2 : ascii) :
  In c1 hexChars -> In c2 hexChars ->
  parseInt16 (String c1 (String c2 EmptyString)) = ofZ (pairValue c1 c2)
  /\ (0 <= pairValue c1 c2 <= 255)%Z.
Proof.
  unfold hexChars. cbn [list_ascii_of_string In]. intros H1 H2.
  repeat (destruct H1 as [<-|H1];
          [repeat (destruct H2 as [<-|H2];
                   [split; [vm_compute; reflexivity | vm_compute; split; discriminate]|]);
           contradiction|]).
  contradiction.
Qed.

(** On a string that the pattern accepts, [hexToHSL] is [channelsToHSL] on
    the channel values of three integers of [0, 255]. *)
Lemma hexToHSL_channels (str : string) :
  hexPattern str = true ->
  exists rz gz bz,
    (0 <= rz <= 255)%Z /\ (0 <= gz <= 255)%Z /\ (0 <= bz <= 255)%Z
    /\ hexToHSL str = channelsToHSL (channel rz) (channel gz) (channel bz).
Proof.
  intros H. apply hexPattern_inv in H. destruct H as [six [H6 Hstr]].
  apply allHex_inv in H6.
  destruct H6 as (c1 & c2 & c3 & c4 & c5 & c6 & -> & I1 & I2 & I3 & I4 & I5 & I6).
  destruct (parseInt16_pair I1 I2) as [P12 R12].
  destruct (parseInt16_pair I3 I4) as [P34 R34].
  destruct (parseInt16_pair I5 I6) as [P56 R56].
  exists (pairValue c1 c2), (pairValue c3 c4), (pairValue c5 c6).
  repeat split; try lia.
  unfold hexToHSL, channel.
  assert (Hs : stripHash str
               = String c1 (String c2 (String c3 (String c4 (String c5
                   (String c6 EmptyString)))))).
  { destruct Hstr as [->| ->]; [|reflexivity].
    apply (hexChar_not_hash _ I1). }
  rewrite Hs. cbv zeta.
  change (slice 0 2 (String c1 (String c2 (String c3 (String c4 (String c5
            (String c6 EmptyString)))))))
    with (String c1 (String c2 EmptyString)).
  change (slice 2 4 (String c1 (String c2 (String c3 (String c4 (String c5
            (String c6 EmptyString)))))))
    with (String c3 (String c4 EmptyString)).
  change (slice 4 6 (String c1 (String c2 (String c3 (String c4 (String c5
            (String c6 EmptyString)))))))
    with (String c5 (String c6 EmptyString)).
  rewrite P12, P34, P56. reflexivity.
Qed.

Lemma baseColor_setBaseColor (src : Color) (st : State) :
  baseColor (setBaseColor src st) = baseColor (assignBase src st).
Proof.
  unfold setBaseColor, watchBaseColor.
  match goal with |- context [if ?c then _ else _] => destruct c end;
    reflexivity.
Qed.



(* ------------------------------------------------------------------ *)
(** ** hexToHSL: range of the result *)

Lemma channels_spec : channels = map channel (zrange 0 256).
Proof. vm_compute. reflexivity. Qed.

Lemma channel_In (z : Z) : (0 <= z <= 255)%Z -> In (channel z) channels.
Proof.
  intros Hz. rewrite channels_spec. apply in_map, zrange_In. lia.
Qed.

(** [Math.max] and [Math.min] return one of their arguments, or NaN. *)
Lemma Math_max_cases (a b : number) :
  Math_max a b = a \/ Math_max a b = b \/ Math_max a b = NaN.
Proof.
  unfold Math_max.
  repeat match goal with
         | |- context [if ?c then _ else _] => destruct c
         end; auto.
Qed.

Lemma Math_min_cases (a b : number) :
  Math_min a b = a \/ Math_min a b = b \/ Math_min a b = NaN.
Proof.
  unfold Math_min.
  repeat match goal with
         | |- context [if ?c then _ else _] => destruct c
         end; auto.
Qed.

Lemma Math_max3_In (T : list number) (a b c : number) :
  In a T -> In b T -> In c T -> In (Math_max3 a b c) (NaN :: T).
Proof.
  intros Ha Hb Hc. unfold Math_max3.
  destruct (Math_max_cases (Math_max a b) c) as [-> | [-> | ->]];
    [|now right|now left].
  destruct (Math_max_cases a b) as [-> | [-> | ->]];
    [now right|now right|now left].
Qed.

Lemma Math_min3_In (T : list number) (a b c : number) :
  In a T -> In b T -> In c T -> In (Math_min3 a b c) (NaN :: T).
Proof.
  intros Ha Hb Hc. unfold Math_min3.
  destruct (Math_min_cases (Math_min a b) c) as [-> | [-> | ->]];
    [|now right|now left].
  destruct (Math_min_cases a b) as [-> | [-> | ->]];
    [now right|now right|now left].
Qed.

(** The hue of all 256 * 256 * 256 channel triples, by evaluation. *)
Lemma hueSweep_channels : hueSweep channels = true.
Proof. vm_compute. reflexivity. Qed.

(** Saturation and lightness of all pairs of a maximum and a minimum. *)
Lemma slSweep_channels : slSweep (NaN :: channels) = true.
Proof. vm_compute. reflexivity. Qed.

Lemma hueCheck_sound (r g b : number) :
  hueCheck r g b (Math_max r g) (Math_min r g) = true ->
  (Math_min3 r g b <=? Math_max3 r g b)%float = true
  /\ integerIn 0 360 (h (channelsToHSL r g b)) = true.
Proof.
  unfold hueCheck, channelsToHSL, Math_max3, Math_min3.
  set (max := Math_max (Math_max r g) b).
  set (min := Math_min (Math_min r g) b).
  cbv zeta.
  destruct (min <=? max)%float; [|discriminate].
  destruct (max =? min)%float.
  - intros _. split; [reflexivity|]. vm_compute. reflexivity.
  - intros H. split; [reflexivity|]. exact H.
Qed.

Lemma slCheck_sound (r g b : number) :
  (Math_min3 r g b <=? Math_max3 r g b)%float = true ->
  slCheck (Math_max3 r g b) (Math_min3 r g b) = true ->
  integerIn 0 100 (s (channelsToHSL r g b)) = true
  /\ integerIn 0 100 (l (channelsToHSL r g b)) = true.
Proof.
  unfold slCheck, satLight, channelsToHSL.
  set (max := Math_max3 r g b). set (min := Math_min3 r g b).
  cbv zeta. intros ->.
  destruct (max =? min)%float; intros H; apply andb_true_iff in H; exact H.
Qed.

Lemma hueSweep_sound (T : list number) :
  hueSweep T = true ->
  forall r g b, In r T -> In g T -> In b T ->
  hueCheck r g b (Math_max r g) (Math_min r g) = true.
Proof.
  unfold hueSweep. intros Hall r g b Hr Hg Hb.
  rewrite forallb_forall in Hall. specialize (Hall r Hr).
  rewrite forallb_forall in Hall. specialize (Hall g Hg). cbv zeta in Hall.
  rewrite forallb_forall in Hall. exact (Hall b Hb).
Qed.

Lemma slSweep_sound (T : list number) :
  slSweep T = true ->
  forall max min, In max T -> In min T -> slCheck max min = true.
Proof.
  unfold slSweep. intros Hall max min Hmax Hmin.
  rewrite forallb_forall in Hall. specialize (Hall max Hmax).
  rewrite forallb_forall in Hall. exact (Hall min Hmin).
Qed.

Lemma channelsToHSL_range (r g b : number) :
  In r channels -> In g channels -> In b channels ->
  integerIn 0 360 (h (channelsToHSL r g b)) = true
  /\ integerIn 0 100 (s (channelsToHSL r g b)) = true
  /\ integerIn 0 100 (l (channelsToHSL r g b)) = true.
Proof.
  intros Hr Hg Hb.
  destruct (hueCheck_sound r g b
              (@hueSweep_sound channels hueSweep_channels r g b Hr Hg Hb))
    as [Hord Hh].
  split; [exact Hh|].
  apply slCheck_sound; [exact Hord|].
  exact (@slSweep_sound (NaN :: channels) slSweep_channels _ _
           (Math_max3_In channels r g b Hr Hg Hb)
           (Math_min3_In channels r g b Hr Hg Hb)).
Qed.

(** C4, as the code behaves: "#ff0001" matches the pattern and its hue is
    360, not below 360. *)
Lemma hexToHSL_hue_360 :
  hexPattern "#ff0001" = true
  /\ hexToHSL "#ff0001" = hsl 360 100 50
  /\ (h (hexToHSL "#ff0001") <? 360)%float = false.
Proof. repeat split; vm_compute; reflexivity. Qed.

(** C4, amended.  For every string that matches the pattern (an optional
    '#' and exactly six hexadecimal digits), [hexToHSL] returns three
    integers: the hue in [0, 360], 360 included, the saturation in
    [0, 100] and the lightness in [0, 100]. *)
Theorem hexToHSL_range (str : string) :
  hexPattern str = true ->
  integerIn 0 360 (h (hexToHSL str)) = true
  /\ integerIn 0 100 (s (hexToHSL str)) = true
  /\ integerIn 0 100 (l (hexToHSL str)) = true.
Proof.
  intros H. apply hexToHSL_channels in H.
  destruct H as (rz & gz & bz & Hr & Hg & Hb & ->).
  apply channelsToHSL_range; apply channel_In; assumption.
Qed.

Lemma hexToHSL_range_witness :
  integerIn 0 360 (h (hexToHSL "#ff0001")) = true
  /\ integerIn 0 100 (s (hexToHSL "#ff0001")) = true
  /\ integerIn 0 100 (l (hexToHSL "#ff0001")) = true.
Proof. apply (@hexToHSL_range "#ff0001"). vm_compute. reflexivity. Defined.

(* ------------------------------------------------------------------ *)
(** ** Round trip RGB -> hex -> HSL -> RGB *)




(* ------------------------------------------------------------------ *)
(** ** HSLToRGB on the slider ranges *)

Lemma sameValue_eq (x y : number) : sameValue x y = true -> x = y.
Proof. apply FloatAxioms.Leibniz.eqb_spec. Qed.

Lemma sameValue_refl (x : number) : sameValue x x = true.
Proof. apply FloatAxioms.Leibniz.eqb_spec. reflexivity. Qed.

Lemma dedupe_In (x : number) (xs : list number) : In x xs -> In x (dedupe xs).
Proof.
  induction xs as [|y xs IH]; [intros []|].
  intros [->|Hx]; cbn [dedupe].
  - destruct (existsb (sameValue x) (dedupe xs)) eqn:Hex; [|now left].
    apply existsb_exists in Hex. destruct Hex as [z [Hz Hxz]].
    apply sameValue_eq in Hxz. now subst.
  - destruct (existsb (sameValue y) (dedupe xs)); [|right]; apply IH, Hx.
Qed.

Lemma percents_spec : percents = map ofZ (zrange 0 101).
Proof. vm_compute. reflexivity. Qed.

Lemma degrees_spec : degrees = map ofZ (zrange 0 361).
Proof. vm_compute. reflexivity. Qed.

Lemma hueTerms_spec : hueTerms = dedupe (flat_map hueTermsOf (zrange 0 361)).
Proof. vm_compute. reflexivity. Qed.

Lemma percent_In (z : Z) : (0 <= z <= 100)%Z -> In (ofZ z) percents.
Proof. intros Hz. rewrite percents_spec. apply in_map, zrange_In. lia. Qed.

Lemma degree_In (z : Z) : (0 <= z <= 360)%Z -> In (ofZ z) degrees.
Proof. intros Hz. rewrite degrees_spec. apply in_map, zrange_In. lia. Qed.

Lemma hueTerm_In (hz : Z) (t : number) :
  (0 <= hz <= 360)%Z -> In t (hueTermsOf hz) -> In t hueTerms.
Proof.
  intros Hz Ht. rewrite hueTerms_spec. apply dedupe_In, in_flat_map.
  exists hz. split; [apply zrange_In; lia | exact Ht].
Qed.

Lemma sweep2_sound (f : number -> number -> bool) (Xs Ys : list number) :
  sweep2 f Xs Ys = true ->
  forall x y, In x Xs -> In y Ys -> f x y = true.
Proof.
  unfold sweep2. intros Hall x y Hx Hy.
  rewrite forallb_forall in Hall. specialize (Hall x Hx).
  rewrite forallb_forall in Hall. exact (Hall y Hy).
Qed.

Lemma channelSweep_sound (Ts Ss Ls : list number) :
  channelSweep Ts Ss Ls = true ->
  forall t s l, In t Ts -> In s Ss -> In l Ls ->
  channelCheck (l / 100) (s / 100 * Math_min (l / 100) (1 - l / 100)) t = true.
Proof.
  unfold channelSweep. intros Hall t s l Ht Hs Hl.
  rewrite forallb_forall in Hall. specialize (Hall s Hs).
  rewrite forallb_forall in Hall. specialize (Hall l Hl). cbv zeta in Hall.
  rewrite forallb_forall in Hall. exact (Hall t Ht).
Qed.

Lemma HSLToRGB_hueTerm (h s l : number) :
  HSLToRGB h s l =
  {| r := Math_round (255 * (l / 100
            - s / 100 * Math_min (l / 100) (1 - l / 100) * hueTerm 0 h));
     g := Math_round (255 * (l / 100
            - s / 100 * Math_min (l / 100) (1 - l / 100) * hueTerm 8 h));
     b := Math_round (255 * (l / 100
            - s / 100 * Math_min (l / 100) (1 - l / 100) * hueTerm 4 h)) |}%float.
Proof. reflexivity. Qed.

Lemma channelSweep_sliders : channelSweep hueTerms percents percents = true.
Proof. vm_compute. reflexivity. Qed.

Lemma graySweep_sliders : sweep2 grayCheck degrees percents = true.
Proof. vm_compute. reflexivity. Qed.

Lemma extremeSweep_sliders : sweep2 extremeCheck degrees percents = true.
Proof. vm_compute. reflexivity. Qed.

Lemma wrapSweep_sliders : sweep2 wrapCheck percents percents = true.
Proof. vm_compute. reflexivity. Qed.

(** X1. For integers h of [0, 360] and s, l of [0, 100] (the ranges of the
    three sliders), every channel that [HSLToRGB] returns is an integer of
    [0, 255]. *)
Theorem HSLToRGB_range (hz sz lz : Z) :
  (0 <= hz <= 360)%Z -> (0 <= sz <= 100)%Z -> (0 <= lz <= 100)%Z ->
  integerIn 0 255 (r (HSLToRGB (ofZ hz) (ofZ sz) (ofZ lz))) = true
  /\ integerIn 0 255 (g (HSLToRGB (ofZ hz) (ofZ sz) (ofZ lz))) = true
  /\ integerIn 0 255 (b (HSLToRGB (ofZ hz) (ofZ sz) (ofZ lz))) = true.
Proof.
  intros Hh Hs Hl. rewrite HSLToRGB_hueTerm. cbn [r g b].
  assert (Hall : forall t, In t (hueTermsOf hz) ->
            channelCheck (ofZ lz / 100)
              (ofZ sz / 100 * Math_min (ofZ lz / 100) (1 - ofZ lz / 100)) t
            = true).
  { intros t Ht.
    exact (@channelSweep_sound _ _ _ channelSweep_sliders t (ofZ sz) (ofZ lz)
             (hueTerm_In Hh Ht) (percent_In Hs) (percent_In Hl)). }
  split; [|split].
  - exact (Hall (hueTerm 0 (ofZ hz)) (or_introl eq_refl)).
  - exact (Hall (hueTerm 8 (ofZ hz)) (or_intror (or_introl eq_refl))).
  - exact (Hall (hueTerm 4 (ofZ hz))
             (or_intror (or_intror (or_introl eq_refl)))).
Qed.

Lemma HSLToRGB_range_witness :
  integerIn 0 255 (r (HSLToRGB (ofZ 181) (ofZ 98) (ofZ 45))) = true
  /\ integerIn 0 255 (g (HSLToRGB (ofZ 181) (ofZ 98) (ofZ 45))) = true
  /\ integerIn 0 255 (b (HSLToRGB (ofZ 181) (ofZ 98) (ofZ 45))) = true.
Proof. apply (@HSLToRGB_range 181 98 45); lia. Defined.

(** X2. With saturation 0 the hue plays no part: for every integer hue of
    [0, 360] and lightness of [0, 100] the three channels are equal, and
    equal to 255 * (l / 100) rounded. *)
Theorem HSLToRGB_gray (hz lz : Z) :
  (0 <= hz <= 360)%Z -> (0 <= lz <= 100)%Z ->
  (r (HSLToRGB (ofZ hz) 0 (ofZ lz)) =? g (HSLToRGB (ofZ hz) 0 (ofZ lz)))%float
    = true
  /\ (g (HSLToRGB (ofZ hz) 0 (ofZ lz)) =? b (HSLToRGB (ofZ hz) 0 (ofZ lz)))%float
     = true
  /\ (r (HSLToRGB (ofZ hz) 0 (ofZ lz)) =? Math_round (255 * (ofZ lz / 100)))%float
     = true.
Proof.
  intros Hh Hl.
  pose proof (@sweep2_sound _ _ _ graySweep_sliders _ _
                (degree_In Hh) (percent_In Hl)) as H.
  unfold grayCheck in H. cbv zeta in H.
  apply andb_true_iff in H. destruct H as [H H3].
  apply andb_true_iff in H. destruct H as [H1 H2]. auto.
Qed.

Lemma HSLToRGB_gray_witness :
  (r (HSLToRGB (ofZ 200) 0 (ofZ 40)) =? g (HSLToRGB (ofZ 200) 0 (ofZ 40)))%float
    = true
  /\ (g (HSLToRGB (ofZ 200) 0 (ofZ 40)) =? b (HSLToRGB (ofZ 200) 0 (ofZ 40)))%float
     = true
  /\ (r (HSLToRGB (ofZ 200) 0 (ofZ 40)) =? Math_round (255 * (ofZ 40 / 100)))%float
     = true.
Proof. apply (@HSLToRGB_gray 200 40); lia. Defined.

(** X3. Lightness 0 is black and lightness 100 is white, whatever the hue
    and the saturation (integers of the slider ranges). *)
Theorem HSLToRGB_black_white (hz sz : Z) :
  (0 <= hz <= 360)%Z -> (0 <= sz <= 100)%Z ->
  ((r (HSLToRGB (ofZ hz) (ofZ sz) 0) =? 0)%float = true
   /\ (g (HSLToRGB (ofZ hz) (ofZ sz) 0) =? 0)%float = true
   /\ (b (HSLToRGB (ofZ hz) (ofZ sz) 0) =? 0)%float = true)
  /\ ((r (HSLToRGB (ofZ hz) (ofZ sz) 100) =? 255)%float = true
      /\ (g (HSLToRGB (ofZ hz) (ofZ sz) 100) =? 255)%float = true
      /\ (b (HSLToRGB (ofZ hz) (ofZ sz) 100) =? 255)%float = true).
Proof.
  intros Hh Hs.
  pose proof (@sweep2_sound _ _ _ extremeSweep_sliders _ _
                (degree_In Hh) (percent_In Hs)) as H.
  unfold extremeCheck in H. cbv zeta in H.
  repeat (apply andb_true_iff in H;
          let H' := fresh "H" in destruct H as [H H']).
  auto 8.
Qed.

Lemma HSLToRGB_black_white_witness :
  ((r (HSLToRGB (ofZ 123) (ofZ 45) 0) =? 0)%float = true
   /\ (g (HSLToRGB (ofZ 123) (ofZ 45) 0) =? 0)%float = true
   /\ (b (HSLToRGB (ofZ 123) (ofZ 45) 0) =? 0)%float = true)
  /\ ((r (HSLToRGB (ofZ 123) (ofZ 45) 100) =? 255)%float = true
      /\ (g (HSLToRGB (ofZ 123) (ofZ 45) 100) =? 255)%float = true
      /\ (b (HSLToRGB (ofZ 123) (ofZ 45) 100) =? 255)%float = true).
Proof. apply (@HSLToRGB_black_white 123 45); lia. Defined.

(** X4. The hue 360, which the hue slider and [hexToHSL] can both produce,
    gives the channels of hue 0 for every saturation and lightness. *)
Theorem HSLToRGB_hue_wraps (sz lz : Z) :
  (0 <= sz <= 100)%Z -> (0 <= lz <= 100)%Z ->
  (r (HSLToRGB 360 (ofZ sz) (ofZ lz)) =? r (HSLToRGB 0 (ofZ sz) (ofZ lz)))%float
    = true
  /\ (g (HSLToRGB 360 (ofZ sz) (ofZ lz)) =? g (HSLToRGB 0 (ofZ sz) (ofZ lz)))%float
     = true
  /\ (b (HSLToRGB 360 (ofZ sz) (ofZ lz)) =? b (HSLToRGB 0 (ofZ sz) (ofZ lz)))%float
     = true.
Proof.
  intros Hs Hl.
  pose proof (@sweep2_sound _ _ _ wrapSweep_sliders _ _
                (percent_In Hs) (percent_In Hl)) as H.
  unfold wrapCheck in H. cbv zeta in H.
  apply andb_true_iff in H. destruct H as [H H3].
  apply andb_true_iff in H. destruct H as [H1 H2]. auto.
Qed.

Lemma HSLToRGB_hue_wraps_witness :
  (r (HSLToRGB 360 (ofZ 100) (ofZ 50)) =? r (HSLToRGB 0 (ofZ 100) (ofZ 50)))%float
    = true
  /\ (g (HSLToRGB 360 (ofZ 100) (ofZ 50)) =? g (HSLToRGB 0 (ofZ 100) (ofZ 50)))%float
     = true
  /\ (b (HSLToRGB 360 (ofZ 100) (ofZ 50)) =? b (HSLToRGB 0 (ofZ 100) (ofZ 50)))%float
     = true.
Proof. apply (@HSLToRGB_hue_wraps 100 50); lia. Defined.

(* ------------------------------------------------------------------ *)
(** ** RGBToHex and hexToHSL together *)

Lemma lowerHexDigit_value (d : Z) :
  (0 <= d <= 15)%Z ->
  isHexDigit (lowerHexDigit d) = true /\ hexDigitValue (lowerHexDigit d) = d.
Proof.
  intros Hd.
  assert (H : (isHexDigit (lowerHexDigit d)
               && (hexDigitValue (lowerHexDigit d) =? d)%Z)%bool = true).
  { apply (@forallb_zrange
             (fun d => (isHexDigit (lowerHexDigit d)
                        && (hexDigitValue (lowerHexDigit d) =? d)%Z)%bool) 0 16);
      [vm_compute; reflexivity | lia]. }
  apply andb_true_iff in H. destruct H as [H1 H2].
  apply Z.eqb_eq in H2. auto.
Qed.

Lemma twoHexDigits_value (c : Z) :
  (0 <= c <= 255)%Z ->
  exists x y,
    twoHexDigits c = String x (String y EmptyString)
    /\ isHexDigit x = true /\ isHexDigit y = true /\ pairValue x y = c.
Proof.
  intros Hc.
  assert (Hq : (0 <= c / 16 <= 15)%Z).
  { assert (c / 16 < 16)%Z by (apply Z.div_lt_upper_bound; lia).
    assert (0 <= c / 16)%Z by (apply Z.div_pos; lia). lia. }
  assert (Hr : (0 <= c mod 16 <= 15)%Z)
    by (pose proof (Z.mod_pos_bound c 16); lia).
  destruct (lowerHexDigit_value Hq) as [Hx Vx].
  destruct (lowerHexDigit_value Hr) as [Hy Vy].
  exists (lowerHexDigit (c / 16)), (lowerHexDigit (c mod 16)).
  repeat split; try assumption.
  unfold pairValue. rewrite Vx, Vy. symmetry. apply Z.div_mod. lia.
Qed.

(** [hexToHSL] on six hexadecimal digits, with or without the '#'. *)
Lemma hexToHSL_digits (c1 c2 c3 c4 c5 c6 : ascii) :
  In c1 hexChars -> In c2 hexChars -> In c3 hexChars ->
  In c4 hexChars -> In c5 hexChars -> In c6 hexChars ->
  let six := String c1 (String c2 (String c3 (String c4 (String c5
               (String c6 EmptyString))))) in
  let c := channelsToHSL (channel (pairValue c1 c2)) (channel (pairValue c3 c4))
             (channel (pairValue c5 c6)) in
  hexToHSL six = c /\ hexToHSL (String "#" six) = c.
Proof.
  intros I1 I2 I3 I4 I5 I6. cbv zeta.
  destruct (parseInt16_pair I1 I2) as [P12 _].
  destruct (parseInt16_pair I3 I4) as [P34 _].
  destruct (parseInt16_pair I5 I6) as [P56 _].
  assert (Hplain :
    hexToHSL (String c1 (String c2 (String c3 (String c4 (String c5
                (String c6 EmptyString))))))
    = channelsToHSL (channel (pairValue c1 c2)) (channel (pairValue c3 c4))
        (channel (pairValue c5 c6))).
  { unfold hexToHSL, channel.
    rewrite (proj1 (hexChar_not_hash _ I1)). cbv zeta.
    change (slice 0 2 (String c1 (String c2 (String c3 (String c4 (String c5
              (String c6 EmptyString)))))))
      with (String c1 (String c2 EmptyString)).
    change (slice 2 4 (String c1 (String c2 (String c3 (String c4 (String c5
              (String c6 EmptyString)))))))
      with (String c3 (String c4 EmptyString)).
    change (slice 4 6 (String c1 (String c2 (String c3 (String c4 (String c5
              (String c6 EmptyString)))))))
      with (String c5 (String c6 EmptyString)).
    rewrite P12, P34, P56. reflexivity. }
  split; [exact Hplain|].
  rewrite <- Hplain. unfold hexToHSL.
  rewrite (proj1 (hexChar_not_hash _ I1)). reflexivity.
Qed.

(** X5. What [RGBToHex] writes for channels of [0, 255] is accepted by the
    pattern of the hex input, and [hexToHSL] reads back exactly the three
    channels. *)
Theorem RGBToHex_parses (rz gz bz : Z) :
  (0 <= rz <= 255)%Z -> (0 <= gz <= 255)%Z -> (0 <= bz <= 255)%Z ->
  hexPattern (RGBToHex rz gz bz) = true
  /\ hexToHSL (RGBToHex rz gz bz)
     = channelsToHSL (channel rz) (channel gz) (channel bz).
Proof.
  intros Hr Hg Hb. unfold RGBToHex.
  rewrite !toHex_twoHexDigits by assumption.
  destruct (twoHexDigits_value Hr) as (x1 & y1 & -> & Hx1 & Hy1 & <-).
  destruct (twoHexDigits_value Hg) as (x2 & y2 & -> & Hx2 & Hy2 & <-).
  destruct (twoHexDigits_value Hb) as (x3 & y3 & -> & Hx3 & Hy3 & <-).
  cbn [String.append]. split.
  - cbn [hexPattern allHex]. rewrite Hx1, Hy1, Hx2, Hy2, Hx3, Hy3. reflexivity.
  - apply hexToHSL_digits; apply isHexDigit_In; assumption.
Qed.

Lemma RGBToHex_parses_witness :
  hexPattern (RGBToHex 2 228 230) = true
  /\ hexToHSL (RGBToHex 2 228 230)
     = channelsToHSL (channel 2) (channel 228) (channel 230).
Proof. apply (@RGBToHex_parses 2 228 230); lia. Defined.

(** X6. On channels of [0, 255], [RGBToHex] is injective: two triples with
    the same hex string are the same triple. *)
Theorem RGBToHex_injective (r1 g1 b1 r2 g2 b2 : Z) :
  (0 <= r1 <= 255)%Z -> (0 <= g1 <= 255)%Z -> (0 <= b1 <= 255)%Z ->
  (0 <= r2 <= 255)%Z -> (0 <= g2 <= 255)%Z -> (0 <= b2 <= 255)%Z ->
  RGBToHex r1 g1 b1 = RGBToHex r2 g2 b2 ->
  r1 = r2 /\ g1 = g2 /\ b1 = b2.
Proof.
  intros Hr1 Hg1 Hb1 Hr2 Hg2 Hb2. unfold RGBToHex.
  rewrite !toHex_twoHexDigits by assumption.
  destruct (twoHexDigits_value Hr1) as (x1 & y1 & -> & _ & _ & <-).
  destruct (twoHexDigits_value Hg1) as (x2 & y2 & -> & _ & _ & <-).
  destruct (twoHexDigits_value Hb1) as (x3 & y3 & -> & _ & _ & <-).
  destruct (twoHexDigits_value Hr2) as (u1 & v1 & -> & _ & _ & <-).
  destruct (twoHexDigits_value Hg2) as (u2 & v2 & -> & _ & _ & <-).
  destruct (twoHexDigits_value Hb2) as (u3 & v3 & -> & _ & _ & <-).
  cbn [String.append]. intros [= -> -> -> -> -> ->]. auto.
Qed.

Lemma RGBToHex_injective_witness : 17%Z = 17%Z /\ 0%Z = 0%Z /\ 255%Z = 255%Z.
Proof.
  apply (@RGBToHex_injective 17 0 255 17 0 255); try lia. reflexivity.
Defined.

Lemma toLowerAscii_hex (c : ascii) :
  In c hexChars ->
  In (toLowerAscii c) hexChars
  /\ hexDigitValue (toLowerAscii c) = hexDigitValue c.
Proof.
  unfold hexChars. cbn [list_ascii_of_string In]. intros H.
  repeat (destruct H as [<-|H];
          [split; [vm_compute; repeat (first [left; reflexivity | right])
                  | vm_compute; reflexivity]|]).
  contradiction.
Qed.

Lemma hexToHSL_lowercase (str : string) :
  hexPattern str = true -> hexToHSL (lowercase str) = hexToHSL str.
Proof.
  intros H. apply hexPattern_inv in H. destruct H as [six [H6 Hstr]].
  apply allHex_inv in H6.
  destruct H6 as (c1 & c2 & c3 & c4 & c5 & c6 & -> & I1 & I2 & I3 & I4 & I5 & I6).
  destruct (toLowerAscii_hex I1) as [L1 V1].
  destruct (toLowerAscii_hex I2) as [L2 V2].
  destruct (toLowerAscii_hex I3) as [L3 V3].
  destruct (toLowerAscii_hex I4) as [L4 V4].
  destruct (toLowerAscii_hex I5) as [L5 V5].
  destruct (toLowerAscii_hex I6) as [L6 V6].
  destruct (hexToHSL_digits I1 I2 I3 I4 I5 I6) as [Hplain Hhash].
  destruct (hexToHSL_digits L1 L2 L3 L4 L5 L6) as [Lplain Lhash].
  unfold pairValue in Lplain, Lhash.
  rewrite V1, V2, V3, V4, V5, V6 in Lplain, Lhash.
  destruct Hstr as [-> | ->].
  - cbn [lowercase]. rewrite Lplain, Hplain. reflexivity.
  - cbn [lowercase].
    change (toLowerAscii "#") with "#"%char.
    rewrite Lhash, Hhash. reflexivity.
Qed.

(** X7. [hexToHSL] does not distinguish upper and lower case: two accepted
    inputs that agree up to the case of their letters give the same color. *)
Theorem hexToHSL_case_insensitive (x y : string) :
  hexPattern x = true -> hexPattern y = true ->
  lowercase x = lowercase y ->
  hexToHSL x = hexToHSL y.
Proof.
  intros Hx Hy Hxy.
  rewrite <- (hexToHSL_lowercase x Hx), <- (hexToHSL_lowercase y Hy), Hxy.
  reflexivity.
Qed.

Lemma hexToHSL_case_insensitive_witness :
  hexToHSL "#AaBbCc" = hexToHSL "#aAbBcC".
Proof.
  apply (@hexToHSL_case_insensitive "#AaBbCc" "#aAbBcC");
    vm_compute; reflexivity.
Defined.

(** X8. A gray (v, v, v), written by [RGBToHex] and read by [hexToHSL], has
    hue 0, saturation 0 and the lightness 100 * v / 255 rounded to the
    nearest integer. *)
Theorem hexToHSL_gray (v : Z) :
  (0 <= v <= 255)%Z ->
  hexToHSL (RGBToHex v v v) = hsl 0 0 (ofZ ((200 * v + 255) / 510)).
Proof.
  intros Hv. pattern v.
  apply (@Forall_zrange _ 0 256); [forall_range | lia].
Qed.

Lemma hexToHSL_gray_witness :
  hexToHSL (RGBToHex 128 128 128) = hsl 0 0 (ofZ ((200 * 128 + 255) / 510)).
Proof. apply (@hexToHSL_gray 128). lia. Defined.

(* ------------------------------------------------------------------ *)
(** ** The eight hues of a palette *)

Lemma positionOf_degree (z : Z) :
  (0 <= z <= 360)%Z -> positionOf (ofZ z) degrees 0 = z.
Proof.
  intros Hz. apply Z.eqb_eq.
  apply (@forallb_zrange (fun z => (positionOf (ofZ z) degrees 0 =? z)%Z) 0 361);
    [vm_compute; reflexivity | lia].
Qed.

Lemma ofZ_degree_inj (a b : Z) :
  (0 <= a <= 360)%Z -> (0 <= b <= 360)%Z -> ofZ a = ofZ b -> a = b.
Proof.
  intros Ha Hb Hab.
  rewrite <- (positionOf_degree Ha), <- (positionOf_degree Hb), Hab.
  reflexivity.
Qed.

Lemma distinctZ_NoDup (zs : list Z) : distinctZ zs = true -> NoDup zs.
Proof.
  induction zs as [|z zs IH]; cbn [distinctZ]; intros H; constructor.
  - apply andb_true_iff in H. destruct H as [H _].
    apply negb_true_iff in H. intros Hin.
    assert (existsb (Z.eqb z) zs = true)
      by (apply existsb_exists; exists z; split; [exact Hin | apply Z.eqb_refl]).
    congruence.
  - apply andb_true_iff in H. apply IH, H.
Qed.

Lemma NoDup_map_ofZ (zs : list Z) :
  Forall (fun z => (0 <= z <= 360)%Z) zs -> NoDup zs -> NoDup (map ofZ zs).
Proof.
  induction zs as [|z zs IH]; intros Hr Hn; cbn [map]; constructor;
    inversion Hr as [|? ? Hz Hzs]; inversion Hn as [|? ? Hnotin Hn']; subst.
  - intros Hin. apply in_map_iff in Hin. destruct Hin as [y [Hy Hin]].
    rewrite Forall_forall in Hzs.
    apply ofZ_degree_inj in Hy; [subst; contradiction | apply Hzs, Hin | exact Hz].
  - apply IH; assumption.
Qed.

Lemma hues_distinct (hz : Z) :
  (0 <= hz <= 360)%Z ->
  distinctZ (map (fun d => (hz + d) mod 360)%Z hueOffsets) = true.
Proof.
  intros Hz.
  apply (@forallb_zrange
           (fun hz => distinctZ (map (fun d => (hz + d) mod 360)%Z hueOffsets))
           0 361);
    [vm_compute; reflexivity | lia].
Qed.

(** X9. For a base color whose hue is an integer of [0, 360], the eight
    hues that [generatePalette] produces are pairwise different. *)
Theorem generatePalette_distinct_hues (st : State) (hz : Z) :
  (0 <= hz <= 360)%Z ->
  h (baseColor st) = ofZ hz ->
  NoDup (map h (palette (generatePalette st))).
Proof.
  intros Hz Hh. cbn [generatePalette palette].
  rewrite paletteLoop_unfold, Hh, map_map. cbn [h].
  rewrite map_id, (palette_hues Hz), <- map_map.
  apply NoDup_map_ofZ.
  - apply Forall_forall. intros z Hin. apply in_map_iff in Hin.
    destruct Hin as [d [<- _]].
    pose proof (Z.mod_pos_bound (hz + d) 360). lia.
  - apply distinctZ_NoDup. exact (hues_distinct Hz).
Qed.

Lemma generatePalette_distinct_hues_witness :
  NoDup (map h (palette (generatePalette initialState))).
Proof.
  apply (@generatePalette_distinct_hues initialState 45);
    [lia | vm_compute; reflexivity].
Defined.

(* ------------------------------------------------------------------ *)
(** ** Invariants of the reachable states *)

Lemma plain_palette (st st' : State) :
  h (baseColor st') = h (baseColor st) ->
  s (baseColor st') = s (baseColor st) ->
  l (baseColor st') = l (baseColor st) ->
  map plain (palette (generatePalette st'))
  = map plain (palette (generatePalette st)).
Proof.
  intros Hh Hs Hl. cbn [generatePalette palette].
  rewrite !paletteLoop_unfold, !map_map. unfold plain. cbn [h s l].
  rewrite Hh, Hs, Hl. reflexivity.
Qed.

Lemma nth_error_setNth_other (f : Color -> Color) (cs : list Color) :
  forall n m, n <> m -> nth_error (setNth n f cs) m = nth_error cs m.
Proof.
  induction cs as [|c cs IH]; intros [|n] [|m] Hnm; cbn;
    try reflexivity; try congruence.
  apply IH. congruence.
Qed.

Lemma map_plain_setNth (f : Color -> Color) (cs : list Color) :
  (forall c, plain (f c) = plain c) ->
  forall n, map plain (setNth n f cs) = map plain cs.
Proof.
  intros Hf. induction cs as [|c cs IH]; intros [|n]; cbn [setNth map];
    rewrite ?Hf, ?IH; reflexivity.
Qed.

Lemma Forall_setNth (P : Color -> Prop) (f : Color -> Color) (cs : list Color) :
  Forall P cs ->
  forall n, (forall c, nth_error cs n = Some c -> P (f c)) ->
  Forall P (setNth n f cs).
Proof.
  induction 1 as [|c cs Hc Hcs IH]; intros [|n] Hf; cbn [setNth];
    constructor; auto;
    first [ apply Hf; reflexivity
          | apply IH; intros c' Hc'; apply Hf; exact Hc' ].
Qed.

Lemma consistent_generatePalette (st : State) :
  (forall i, selectedColor st = Some i -> (0 <= i < 8)%Z) ->
  (forall sel, selectedShade st = Some sel ->
     selectedColor st <> None /\ shadeAddress sel) ->
  Consistent (generatePalette st).
Proof.
  intros Hsc Hss.
  constructor; cbn [generatePalette palette selectedColor selectedShade];
    try assumption.
  - apply paletteLoop_length.
  - reflexivity.
  - rewrite paletteLoop_unfold. apply Forall_forall.
    intros c Hc. apply in_map_iff in Hc. destruct Hc as [hue [<- _]].
    repeat split. now left.
Qed.

Lemma consistent_withHexInput (str : string) (st : State) :
  Consistent st -> Consistent (withHexInput str st).
Proof. intros [H1 H2 H3 H4 H5]. constructor; assumption. Qed.

Lemma consistent_setBaseColor (src : Color) (st : State) :
  Consistent st -> Consistent (setBaseColor src st).
Proof.
  intros [H1 H2 H3 H4 H5]. unfold setBaseColor, watchBaseColor.
  cbn [assignBase baseColor h s l].
  destruct (sameValue (h (baseColor st)) (h src)
            && sameValue (s (baseColor st)) (s src)
            && sameValue (l (baseColor st)) (l src))%bool eqn:Hsame.
  - apply andb_true_iff in Hsame. destruct Hsame as [Hsame Hl].
    apply andb_true_iff in Hsame. destruct Hsame as [Hh Hs].
    apply sameValue_eq in Hh, Hs, Hl.
    constructor; cbn [assignBase palette selectedColor selectedShade];
      try assumption.
    rewrite H2. symmetry. apply plain_palette; cbn [assignBase baseColor h s l];
      congruence.
  - apply consistent_generatePalette; assumption.
Qed.

Lemma newShades_withShades (c : Color) (sh : list Color) :
  newShades (withShades c sh) = newShades c.
Proof. reflexivity. Qed.

Lemma consistent_generateShades (st : State) (n : nat) (color : Color) :
  Consistent st ->
  nth_error (palette st) n = Some color ->
  Consistent (generateShades color (Z.of_nat n) st).
Proof.
  intros [H1 H2 H3 H4 H5] Hnth. unfold generateShades, paletteAt.
  destruct (Z.of_nat n <? 0)%Z eqn:Hneg; [apply Z.ltb_lt in Hneg; lia|].
  rewrite Nat2Z.id, Hnth.
  constructor; cbn [palette selectedColor selectedShade].
  - rewrite length_setNth. exact H1.
  - rewrite map_plain_setNth by reflexivity. exact H2.
  - apply Forall_setNth; [exact H3|].
    intros c Hc. rewrite Hnth in Hc. injection Hc as <-.
    rewrite Forall_forall in H3.
    destruct (H3 color (nth_error_In _ _ Hnth)) as (_ & Hrow & Hidx).
    repeat split; [right; reflexivity | exact Hrow | exact Hidx].
  - intros i [= <-].
    assert (n < List.length (palette st))%nat
      by (apply nth_error_Some; congruence).
    lia.
  - discriminate.
Qed.

Lemma shadeAt_newShades (c : Color) (row k : nat) (shade : Color) :
  shadeAt (newShades c) row k = Some shade ->
  (row < 3)%nat /\ (k < 5)%nat
  /\ nth_error lightnesses k = Some (l shade)
  /\ shades shade = None.
Proof.
  destruct row as [|[|[|row]]];
    [| | |unfold shadeAt; rewrite skipn_all2 by (cbn; lia);
          destruct k; discriminate];
    unfold shadeAt, newShades, lightnesses;
    cbn [map app Nat.mul Nat.add skipn firstn];
    destruct k as [|[|[|[|[|k]]]]]; cbn [nth_error];
    first [ intros [= <-]; repeat split; lia
          | destruct k; discriminate ].
Qed.

Lemma consistent_clickShade (row i : nat) (st : State) :
  Consistent st -> Consistent (clickShade row i st).
Proof.
  intros Hst. pose proof Hst as [H1 H2 H3 H4 H5]. unfold clickShade.
  destruct (selectedColor st) as [sel|] eqn:Hsel; [|exact Hst].
  destruct (paletteAt st sel) as [c|] eqn:Hat; [|exact Hst].
  destruct (shades c) as [sh|] eqn:Hsh; [|exact Hst].
  destruct (shadeAt sh row i) as [shade|] eqn:Hshade; [|exact Hst].
  constructor; try assumption.
  { cbn [selectShade selectedColor]. rewrite Hsel. exact H4. }
  cbn [selectShade selectedColor selectedShade].
  intros sel' [= <-]. split; [congruence|].
  apply paletteAt_Some in Hat. destruct Hat as [_ Hnth].
  rewrite Forall_forall in H3.
  destruct (H3 c (nth_error_In _ _ Hnth)) as ([Hnil|Hown] & _ & _).
  - rewrite Hsh in Hnil. injection Hnil as ->.
    rewrite shadeAt_nil in Hshade. discriminate.
  - rewrite Hsh in Hown. injection Hown as ->.
    apply shadeAt_newShades in Hshade.
    destruct Hshade as (Hrow & Hk & Hl & Hnone).
    exists row, i. cbn [rowIndex index l shades]. auto 6.
Qed.

Lemma consistent_initialState : Consistent initialState.
Proof. apply consistent_generatePalette; cbn; [discriminate|discriminate]. Qed.

Lemma consistent_step (st : State) (e : Event) :
  Consistent st -> Consistent (step st e).
Proof.
  intros Hst. destruct e as [v|v|v|str|n|row i]; cbn [step].
  - apply consistent_setBaseColor, Hst.
  - apply consistent_setBaseColor, Hst.
  - apply consistent_setBaseColor, Hst.
  - unfold handleHexInput. cbn [withHexInput hexInput].
    destruct (hexPattern str).
    + apply consistent_setBaseColor, consistent_withHexInput, Hst.
    + apply consistent_withHexInput, Hst.
  - destruct (nth_error (palette st) n) as [color|] eqn:Hnth; [|exact Hst].
    apply consistent_generateShades; assumption.
  - apply consistent_clickShade, Hst.
Qed.

Lemma reachable_consistent (st : State) : reachable st -> Consistent st.
Proof.
  induction 1 as [|st e _ IH];
    [apply consistent_initialState | apply consistent_step, IH].
Qed.

(** X10. In every reachable state the palette has 8 entries, and their
    hues, saturations and lightnesses are those that [generatePalette]
    derives from the current base color: the watcher keeps the palette in
    step with the base color, and clicks only add shades. *)
Theorem reachable_palette_of_base (st : State) :
  reachable st ->
  List.length (palette st) = 8%nat
  /\ map plain (palette st) = map plain (palette (generatePalette st)).
Proof.
  intros Hr. destruct (reachable_consistent Hr) as [H1 H2 _ _ _]. auto.
Qed.

Lemma reachable_palette_of_base_witness :
  List.length (palette (run [ClickColor 3; TypeHex "#ff0001"; ClickColor 1]))
    = 8%nat
  /\ map plain (palette (run [ClickColor 3; TypeHex "#ff0001"; ClickColor 1]))
     = map plain
         (palette (generatePalette
                     (run [ClickColor 3; TypeHex "#ff0001"; ClickColor 1]))).
Proof.
  apply (@reachable_palette_of_base
           (run [ClickColor 3; TypeHex "#ff0001"; ClickColor 1])).
  apply run_reachable.
Defined.

(** X11. In every reachable state a selected palette index points at an
    entry of the palette, and a shade is selected only while a palette
    color is selected; the selected shade carries a row of 0..2 and a
    position of 0..4, and its lightness is the one of that position. *)
Theorem reachable_selection_valid (st : State) :
  reachable st ->
  (forall i, selectedColor st = Some i -> paletteAt st i <> None)
  /\ (forall sel, selectedShade st = Some sel ->
        selectedColor st <> None /\ shadeAddress sel).
Proof.
  intros Hr. destruct (reachable_consistent Hr) as [H1 _ _ H4 H5].
  split; [|exact H5].
  intros i Hi Hnone. apply paletteAt_None in Hnone.
  specialize (H4 i Hi). lia.
Qed.

Lemma reachable_selection_valid_witness :
  (forall i, selectedColor (run [ClickColor 3; ClickShade 1 2; SlideH 200])
             = Some i ->
             paletteAt (run [ClickColor 3; ClickShade 1 2; SlideH 200]) i
             <> None)
  /\ (forall sel,
        selectedShade (run [ClickColor 3; ClickShade 1 2; SlideH 200])
        = Some sel ->
        selectedColor (run [ClickColor 3; ClickShade 1 2; SlideH 200]) <> None
        /\ shadeAddress sel).
Proof.
  apply (@reachable_selection_valid
           (run [ClickColor 3; ClickShade 1 2; SlideH 200])).
  apply run_reachable.
Defined.

(** X12. In every reachable state the shades stored on a palette entry are
    either the empty list that [generatePalette] puts there or the 15
    shades computed from that very entry: shades never belong to another
    color or to an earlier base color. *)
Theorem reachable_own_shades (st : State) (c : Color) :
  reachable st ->
  In c (palette st) ->
  shades c = Some [] \/ shades c = Some (newShades c).
Proof.
  intros Hr Hc. destruct (reachable_consistent Hr) as [_ _ H3 _ _].
  rewrite Forall_forall in H3. apply (H3 c Hc).
Qed.

Lemma reachable_own_shades_witness :
  shades (paletteEntry (hsl 200 70 60) 200) = Some []
  \/ shades (paletteEntry (hsl 200 70 60) 200)
     = Some (newShades (paletteEntry (hsl 200 70 60) 200)).
Proof.
  apply (@reachable_own_shades
           (run [ClickColor 3; ClickShade 1 2; SlideH 200])
           (paletteEntry (hsl 200 70 60) 200));
    [apply run_reachable | vm_compute; left; reflexivity].
Defined.

(* ------------------------------------------------------------------ *)
(** ** Clicks *)

(** X13. A click on a displayed shade stores the shade with its row and
    position, and that address finds the same shade again in the palette;
    palette, base color and selected index are left as they were. *)
Theorem clickShade_designates (st : State) (sel : Z) (c : Color)
    (sh : list Color) (row i : nat) (shade : Color) :
  selectedColor st = Some sel ->
  paletteAt st sel = Some c ->
  shades c = Some sh ->
  shadeAt sh row i = Some shade ->
  selectedShade (step st (ClickShade row i)) = Some (tagShade shade row i)
  /\ designatedShade (step st (ClickShade row i)) (tagShade shade row i)
     = Some shade
  /\ palette (step st (ClickShade row i)) = palette st
  /\ baseColor (step st (ClickShade row i)) = baseColor st
  /\ selectedColor (step st (ClickShade row i)) = Some sel.
Proof.
  intros Hsel Hat Hsh Hshade. cbn [step]. unfold clickShade.
  rewrite Hsel, Hat, Hsh, Hshade.
  unfold designatedShade.
  cbn [selectShade selectedShade palette baseColor selectedColor tagShade
       rowIndex index].
  rewrite ?Hsel. repeat split.
  change (paletteAt _ sel) with (paletteAt st sel).
  rewrite Hat, Hsh, !Nat2Z.id. exact Hshade.
Qed.

Lemma clickShade_designates_witness :
  selectedShade (step (run [ClickColor 3]) (ClickShade 1 2))
    = Some (tagShade (hsl 195 90 60) 1 2)
  /\ designatedShade (step (run [ClickColor 3]) (ClickShade 1 2))
       (tagShade (hsl 195 90 60) 1 2)
     = Some (hsl 195 90 60)
  /\ palette (step (run [ClickColor 3]) (ClickShade 1 2))
     = palette (run [ClickColor 3])
  /\ baseColor (step (run [ClickColor 3]) (ClickShade 1 2))
     = baseColor (run [ClickColor 3])
  /\ selectedColor (step (run [ClickColor 3]) (ClickShade 1 2)) = Some 3%Z.
Proof.
  apply (@clickShade_designates (run [ClickColor 3]) 3
           (withShades (paletteEntry (hsl 45 70 60) 195)
              (newShades (hsl 195 70 60)))
           (newShades (hsl 195 70 60)) 1 2 (hsl 195 90 60));
    vm_compute; reflexivity.
Defined.

(** X14. [generateShades] for index [i] touches nothing but the shades of
    entry [i]: base color and hex input are kept, the palette keeps its
    length, every other entry is kept as it is, and entry [i] keeps its
    hue, saturation and lightness. *)
Theorem generateShades_frame (st : State) (color : Color) (i j : Z) :
  i <> j ->
  baseColor (generateShades color i st) = baseColor st
  /\ hexInput (generateShades color i st) = hexInput st
  /\ List.length (palette (generateShades color i st))
     = List.length (palette st)
  /\ paletteAt (generateShades color i st) j = paletteAt st j
  /\ option_map plain (paletteAt (generateShades color i st) i)
     = option_map plain (paletteAt st i).
Proof.
  intros Hij. unfold generateShades.
  destruct (paletteAt st i) as [c|] eqn:Hat;
    [|rewrite Hat; repeat split; reflexivity].
  apply paletteAt_Some in Hat. destruct Hat as [Hi Hnth].
  cbn [baseColor hexInput palette]. repeat split.
  - apply length_setNth.
  - unfold paletteAt. cbn [palette].
    destruct (j <? 0)%Z eqn:Hj; [reflexivity|].
    apply Z.ltb_ge in Hj. apply nth_error_setNth_other. lia.
  - unfold paletteAt. cbn [palette].
    destruct (i <? 0)%Z eqn:Hneg; [apply Z.ltb_lt in Hneg; lia|].
    rewrite nth_error_setNth, Hnth. reflexivity.
Qed.

Lemma generateShades_frame_witness :
  baseColor (generateShades (hsl 1 2 3) 3 (run [ClickColor 5]))
    = baseColor (run [ClickColor 5])
  /\ hexInput (generateShades (hsl 1 2 3) 3 (run [ClickColor 5]))
     = hexInput (run [ClickColor 5])
  /\ List.length (palette (generateShades (hsl 1 2 3) 3 (run [ClickColor 5])))
     = List.length (palette (run [ClickColor 5]))
  /\ paletteAt (generateShades (hsl 1 2 3) 3 (run [ClickColor 5])) 5
     = paletteAt (run [ClickColor 5]) 5
  /\ option_map plain
       (paletteAt (generateShades (hsl 1 2 3) 3 (run [ClickColor 5])) 3)
     = option_map plain (paletteAt (run [ClickColor 5]) 3).
Proof.
  apply (@generateShades_frame (run [ClickColor 5]) (hsl 1 2 3) 3 5). lia.
Defined.

(** X16. After a mutation that changes the base color no shade is on
    display: a click on any shade position changes nothing, until a
    palette color is clicked again. *)
Theorem no_shade_after_mutation (st : State) (e : Event) (src : Color)
    (row i : nat) :
  baseMutation st e = Some src ->
  changesBase src st = true ->
  step (step st e) (ClickShade row i) = step st e.
Proof.
  intros Hm Hc.
  destruct (step_mutation_changed st e Hm Hc) as (_ & _ & _ & _ & _ & Hp).
  assert (Hsh : Forall (fun c => shades c = Some []) (palette (step st e)))
    by (rewrite Hp; apply paletteLoop_shades).
  cbn [step]. unfold clickShade.
  destruct (selectedColor (step st e)) as [sel|]; [|reflexivity].
  destruct (paletteAt (step st e) sel) as [c|] eqn:Hat; [|reflexivity].
  apply paletteAt_Some in Hat. destruct Hat as [_ Hnth].
  rewrite Forall_forall in Hsh.
  rewrite (Hsh c (nth_error_In _ _ Hnth)), shadeAt_nil. reflexivity.
Qed.

Lemma no_shade_after_mutation_witness :
  step (step (run [ClickColor 3; ClickShade 1 2]) (SlideH 200)) (ClickShade 0 0)
  = step (run [ClickColor 3; ClickShade 1 2]) (SlideH 200).
Proof.
  apply (@no_shade_after_mutation (run [ClickColor 3; ClickShade 1 2])
           (SlideH 200) (hsl 200 70 60) 0 0);
    vm_compute; reflexivity.
Defined.

(* ------------------------------------------------------------------ *)
(** ** Repeating an event *)

Lemma setBaseColor_same (src : Color) (st : State) :
  h (baseColor st) = h src -> s (baseColor st) = s src ->
  l (baseColor st) = l src ->
  setBaseColor src st = st.
Proof.
  destruct st as [[bh bs bl bsh bri bix] pal sc ss hx].
  cbn [baseColor h s l]. intros -> -> ->.
  unfold setBaseColor, watchBaseColor.
  cbn [assignBase baseColor h s l]. rewrite !sameValue_refl. reflexivity.
Qed.

Lemma hexInput_setBaseColor (src : Color) (st : State) :
  hexInput (setBaseColor src st) = hexInput st.
Proof.
  unfold setBaseColor, watchBaseColor.
  match goal with |- context [if ?c then _ else _] => destruct c end;
    reflexivity.
Qed.

Lemma withHexInput_same (st : State) (str : string) :
  hexInput st = str -> withHexInput str st = st.
Proof. intros <-. destruct st. reflexivity. Qed.

Lemma setNth_setNth (f : Color -> Color) (cs : list Color) :
  (forall c, f (f c) = f c) ->
  forall n, setNth n f (setNth n f cs) = setNth n f cs.
Proof.
  intros Hf. induction cs as [|c cs IH]; intros [|n]; cbn [setNth];
    rewrite ?Hf, ?IH; reflexivity.
Qed.

Lemma setBaseColor_twice (src : Color) (st : State) :
  setBaseColor src (setBaseColor src st) = setBaseColor src st.
Proof.
  apply setBaseColor_same; rewrite baseColor_setBaseColor; reflexivity.
Qed.

Lemma generateShades_at (st : State) (n : nat) (c color : Color) :
  nth_error (palette st) n = Some c ->
  generateShades color (Z.of_nat n) st
  = {| baseColor := baseColor st;
       palette := setNth n (fun c => withShades c (newShades color)) (palette st);
       selectedColor := Some (Z.of_nat n);
       selectedShade := None;
       hexInput := hexInput st |}.
Proof.
  intros Hnth. unfold generateShades, paletteAt.
  destruct (Z.of_nat n <? 0)%Z eqn:Hneg; [apply Z.ltb_lt in Hneg; lia|].
  rewrite Nat2Z.id, Hnth. reflexivity.
Qed.

(** X15. Every event is idempotent: handling the same event a second time
    changes nothing.  Moving a slider to the value it has, entering the hex
    string again, or clicking the same palette color or shade again leaves
    the state (shades included) as it is. *)
Theorem step_idempotent (st : State) (e : Event) :
  step (step st e) e = step st e.
Proof.
  destruct e as [v|v|v|str|n|row i]; cbn [step].
  - apply setBaseColor_same; rewrite baseColor_setBaseColor; reflexivity.
  - apply setBaseColor_same; rewrite baseColor_setBaseColor; reflexivity.
  - apply setBaseColor_same; rewrite baseColor_setBaseColor; reflexivity.
  - unfold handleHexInput. cbn [withHexInput hexInput].
    destruct (hexPattern str) eqn:Hpat.
    + rewrite ?Hpat.
      rewrite (@withHexInput_same
                 (setBaseColor (hexToHSL str) (withHexInput str st)) str)
        by (rewrite hexInput_setBaseColor; reflexivity).
      apply setBaseColor_twice.
    + rewrite ?Hpat. reflexivity.
  - destruct (nth_error (palette st) n) as [color|] eqn:Hnth;
      [|rewrite Hnth; reflexivity].
    rewrite (@generateShades_at st n color color Hnth). cbn [palette].
    rewrite nth_error_setNth, Hnth. cbn [option_map].
    erewrite generateShades_at
      by (cbn [palette]; rewrite nth_error_setNth, Hnth; reflexivity).
    cbn [baseColor palette hexInput].
    rewrite newShades_withShades, setNth_setNth by reflexivity. reflexivity.
  - unfold clickShade.
    destruct (selectedColor st) as [sel|] eqn:Hsel; [|rewrite Hsel; reflexivity].
    destruct (paletteAt st sel) as [c|] eqn:Hat;
      [|rewrite Hsel, Hat; reflexivity].
    destruct (shades c) as [sh|] eqn:Hsh;
      [|rewrite Hsel, Hat, Hsh; reflexivity].
    destruct (shadeAt sh row i) as [shade|] eqn:Hshade;
      [|rewrite Hsel, Hat, Hsh, Hshade; reflexivity].
    cbn [selectShade selectedColor]. rewrite Hsel.
    change (paletteAt _ sel) with (paletteAt st sel).
    rewrite Hat, Hsh, Hshade. reflexivity.
Qed.

(* ------------------------------------------------------------------ *)
(** ** hexToHSL without the pattern test *)

Lemma ltb_NaN_r (x : number) : (x <? NaN)%float = false.
Proof.
  rewrite ltb_spec. change (Prim2SF NaN) with S754_nan.
  destruct (Prim2SF x) as [[]|[]| |[] ? ?]; reflexivity.
Qed.

Lemma ltb_NaN_l (x : number) : (NaN <? x)%float = false.
Proof. rewrite ltb_spec. change (Prim2SF NaN) with S754_nan. reflexivity. Qed.

Lemma eqb_NaN_r (x : number) : (x =? NaN)%float = false.
Proof.
  rewrite eqb_spec. change (Prim2SF NaN) with S754_nan.
  destruct (Prim2SF x) as [[]|[]| |[] ? ?]; reflexivity.
Qed.

Lemma eqb_NaN_l (x : number) : (NaN =? x)%float = false.
Proof. rewrite eqb_spec. change (Prim2SF NaN) with S754_nan. reflexivity. Qed.

Lemma Math_max_NaN (a : number) : Math_max a NaN = NaN.
Proof.
  unfold Math_max. rewrite ltb_NaN_r, ltb_NaN_l, eqb_NaN_r. reflexivity.
Qed.

Lemma Math_min_NaN (a : number) : Math_min a NaN = NaN.
Proof.
  unfold Math_min. rewrite ltb_NaN_r, ltb_NaN_l, eqb_NaN_r. reflexivity.
Qed.

(** A blue channel that is NaN makes saturation and lightness NaN, and
    leaves the hue at its initial 0. *)
Lemma channelsToHSL_NaN (r g : number) :
  channelsToHSL r g NaN = hsl 0 NaN NaN.
Proof.
  unfold channelsToHSL, Math_max3, Math_min3.
  rewrite Math_max_NaN, Math_min_NaN. cbv zeta.
  rewrite !eqb_NaN_l. vm_compute. reflexivity.
Qed.

Lemma slice_4_6_short (str : string) :
  (String.length str <= 4)%nat -> slice 4 6 str = EmptyString.
Proof.
  destruct str as [|c1 [|c2 [|c3 [|c4 [|c5 rest]]]]]; cbn [String.length];
    intros H; try reflexivity; lia.
Qed.

Lemma allHex_length (n : nat) : forall str,
  allHex n str = true -> String.length str = n.
Proof.
  induction n as [|n IH]; intros [|c rest] H; cbn [allHex] in H;
    try discriminate; [reflexivity|].
  apply andb_true_iff in H. cbn [String.length]. f_equal. apply IH, H.
Qed.

(** X17. [hexToHSL] does not validate its input: on a string that has
    fewer than five characters after the optional '#', the blue channel
    does not parse and the result is hue 0 with NaN saturation and
    lightness.  The pattern test of [handleHexInput] rejects every such
    string, so the base color never receives these values from it. *)
Theorem hexToHSL_short_input (st : State) (str : string) :
  (String.length (stripHash str) <= 4)%nat ->
  hexToHSL str = hsl 0 NaN NaN
  /\ hexPattern str = false
  /\ baseColor (step st (TypeHex str)) = baseColor st.
Proof.
  intros Hlen.
  assert (Hrej : hexPattern str = false).
  { destruct (hexPattern str) eqn:Hpat; [exfalso|reflexivity].
    apply hexPattern_inv in Hpat. destruct Hpat as [six [H6 Hstr]].
    pose proof (allHex_length _ _ H6) as Hsix.
    apply allHex_inv in H6.
    destruct H6 as (c1 & c2 & c3 & c4 & c5 & c6 & -> & I1 & _).
    destruct Hstr as [-> | ->].
    - rewrite (proj1 (hexChar_not_hash _ I1)) in Hlen. rewrite Hsix in Hlen. lia.
    - cbn [stripHash] in Hlen. rewrite Hsix in Hlen. lia. }
  split; [|split; [exact Hrej|]].
  - unfold hexToHSL. rewrite (slice_4_6_short _ Hlen). cbv zeta.
    change (parseInt16 EmptyString / 255)%float with NaN.
    apply channelsToHSL_NaN.
  - cbn [step]. unfold handleHexInput. cbn [withHexInput hexInput].
    rewrite Hrej. reflexivity.
Qed.

Lemma hexToHSL_short_input_witness :
  hexToHSL "#12ab" = hsl 0 NaN NaN
  /\ hexPattern "#12ab" = false
  /\ baseColor (step initialState (TypeHex "#12ab")) = baseColor initialState.
Proof.
  apply (@hexToHSL_short_input initialState "#12ab"). vm_compute. lia.
Defined.

(* ------------------------------------------------------------------ *)
(** ** The fifteen shades *)

Lemma pairEqb_eq (p q : Z * Z) : pairEqb p q = true <-> p = q.
Proof.
  destruct p as [a b], q as [c d]. unfold pairEqb. cbn [fst snd].
  rewrite andb_true_iff, !Z.eqb_eq. split; [intros [-> ->]|intros [= -> ->]];
    auto.
Qed.

Lemma distinctPairs_NoDup (ps : list (Z * Z)) :
  distinctPairs ps = true <-> NoDup ps.
Proof.
  induction ps as [|p ps IH]; cbn [distinctPairs].
  - split; [constructor | reflexivity].
  - rewrite andb_true_iff, negb_true_iff, IH. split.
    + intros [Hex Hnd]. constructor; [|exact Hnd]. intros Hin.
      assert (existsb (pairEqb p) ps = true)
        by (apply existsb_exists; exists p; split;
            [exact Hin | now apply pairEqb_eq]).
      congruence.
    + intros Hnd. inversion Hnd as [|? ? Hnotin Hnd']; subst.
      split; [|exact Hnd'].
      destruct (existsb (pairEqb p) ps) eqn:Hex; [|reflexivity].
      apply existsb_exists in Hex. destruct Hex as [q [Hq Hpq]].
      apply pairEqb_eq in Hpq. subst. contradiction.
Qed.

Lemma shadeSpec_range (sz : Z) (p : Z * Z) :
  (0 <= sz <= 100)%Z -> In p (shadeSpec sz) ->
  (0 <= fst p <= 360)%Z /\ (0 <= snd p <= 360)%Z.
Proof.
  intros Hz Hin. unfold shadeSpec in Hin.
  repeat (apply in_app_or in Hin; destruct Hin as [Hin|Hin]);
    apply in_map_iff in Hin; destruct Hin as [lz [<- Hlz]]; cbn [fst snd];
    cbn [In] in Hlz; lia.
Qed.

Lemma newShades_shadeSpec (c : Color) (sz : Z) :
  (0 <= sz <= 100)%Z -> s c = ofZ sz ->
  newShades c
  = map (fun p => hsl (h c) (ofZ (fst p)) (ofZ (snd p))) (shadeSpec sz).
Proof.
  intros Hz Hs. rewrite newShades_unfold, Hs.
  pose proof (saturation_levels Hz) as Hlv. injection Hlv as -> ->.
  unfold shadeSpec. rewrite lightnesses_integers, !map_app, !map_map.
  reflexivity.
Qed.

Lemma NoDup_map_local (A B : Type) (f : A -> B) (xs : list A) :
  (forall x y, In x xs -> In y xs -> f x = f y -> x = y) ->
  NoDup xs -> NoDup (map f xs).
Proof.
  induction xs as [|x xs IH]; intros Hinj Hnd; cbn [map]; constructor;
    inversion Hnd as [|? ? Hnotin Hnd']; subst.
  - intros Hin. apply in_map_iff in Hin. destruct Hin as [y [Hy Hin]].
    apply Hinj in Hy; [subst; contradiction | now right | now left].
  - apply IH; [|exact Hnd'].
    intros a b Ha Hb. apply Hinj; now right.
Qed.

Lemma shadeSpec_distinct (sz : Z) :
  (0 <= sz <= 100)%Z ->
  distinctPairs (shadeSpec sz) = ((0 <? sz) && (sz <? 100))%Z.
Proof.
  intros Hz. apply Bool.eqb_prop.
  apply (@forallb_zrange
           (fun sz => Bool.eqb (distinctPairs (shadeSpec sz))
                        ((0 <? sz) && (sz <? 100))%Z) 0 101);
    [vm_compute; reflexivity | lia].
Qed.

(** X18. For an integer saturation [sz] of [0, 100] the 15 shades are
    pairwise different exactly when 0 < sz < 100.  At the two ends a row is
    repeated: with saturation 100 the higher-saturation row equals the base
    row, and with saturation 0 the lower-saturation row equals it. *)
Theorem newShades_distinct (c : Color) (sz : Z) :
  (0 <= sz <= 100)%Z ->
  s c = ofZ sz ->
  (NoDup (newShades c) <-> (0 < sz < 100)%Z).
Proof.
  intros Hz Hs. rewrite (newShades_shadeSpec c Hz Hs).
  assert (Hiff : NoDup (shadeSpec sz) <-> (0 < sz < 100)%Z).
  { rewrite <- distinctPairs_NoDup, (shadeSpec_distinct Hz).
    rewrite andb_true_iff, !Z.ltb_lt. reflexivity. }
  rewrite <- Hiff. split.
  - apply NoDup_map_inv.
  - apply NoDup_map_local. intros [a1 b1] [a2 b2] H1 H2 Heq.
    apply (shadeSpec_range Hz) in H1, H2. cbn [fst snd] in *.
    injection Heq as Ha Hb.
    apply ofZ_degree_inj in Ha; [|lia|lia].
    apply ofZ_degree_inj in Hb; [|lia|lia].
    congruence.
Qed.

Lemma newShades_distinct_witness :
  NoDup (newShades (hsl 200 50 60)) <-> (0 < 50 < 100)%Z.
Proof.
  apply (@newShades_distinct (hsl 200 50 60) 50);
    [lia | vm_compute; reflexivity].
Defined.

(** X19. After a click on palette entry [n], every position of the three
    rows of five can be clicked, and the click selects one of the 15
    shades of that entry: it has the hue of the entry and the lightness of
    its position. *)
Theorem click_color_then_shade (st : State) (n : nat) (color : Color)
    (row k : nat) :
  nth_error (palette st) n = Some color ->
  (row < 3)%nat -> (k < 5)%nat ->
  exists shade,
    selectedShade (step (step st (ClickColor n)) (ClickShade row k))
      = Some (tagShade shade row k)
    /\ In shade (newShades color)
    /\ h shade = h color
    /\ nth_error lightnesses k = Some (l shade).
Proof.
  intros Hnth Hrow Hk. cbn [step]. rewrite Hnth.
  rewrite (@generateShades_at st n color color Hnth).
  unfold clickShade, paletteAt. cbn [selectedColor palette].
  destruct (Z.of_nat n <? 0)%Z eqn:Hneg; [apply Z.ltb_lt in Hneg; lia|].
  rewrite Nat2Z.id, nth_error_setNth, Hnth.
  cbn [option_map withShades shades].
  assert (Hex : exists shade,
            shadeAt (newShades color) row k = Some shade
            /\ In shade (newShades color)
            /\ h shade = h color).
  { destruct row as [|[|[|row]]]; [| | |lia];
      destruct k as [|[|[|[|[|k]]]]]; try lia;
      eexists; (split; [reflexivity|]); (split; [|reflexivity]);
      unfold newShades, lightnesses; cbn [map app In]; auto 20. }
  destruct Hex as [shade [Hshade [Hin Hhue]]]. rewrite Hshade.
  exists shade. cbn [selectShade selectedShade].
  split; [reflexivity|]. split; [exact Hin|]. split; [exact Hhue|].
  apply shadeAt_newShades in Hshade. apply Hshade.
Qed.

Lemma click_color_then_shade_witness :
  exists shade,
    selectedShade (step (step initialState (ClickColor 3)) (ClickShade 2 4))
      = Some (tagShade shade 2 4)
    /\ In shade (newShades (paletteEntry (hsl 45 70 60) 195))
    /\ h shade = h (paletteEntry (hsl 45 70 60) 195)
    /\ nth_error lightnesses 4 = Some (l shade).
Proof.
  apply (@click_color_then_shade initialState 3
           (paletteEntry (hsl 45 70 60) 195) 2 4);
    [vm_compute; reflexivity | lia | lia].
Defined.

(* ------------------------------------------------------------------ *)
(** ** The hex text field *)

(** X20. The hex text field is written by typing only.  Typing stores the
    text whether the pattern accepts it or not; sliders and clicks leave the
    field as it is, so it is not refreshed when the base color moves. *)
Theorem hexInput_written_by_typing (st : State) (e : Event) :
  hexInput (step st e)
  = match e with
    | TypeHex str => str
    | _ => hexInput st
    end.
Proof.
  destruct e as [v|v|v|str|n|row k]; cbn [step];
    try apply hexInput_setBaseColor.
  - unfold handleHexInput.
    destruct (hexPattern (hexInput (withHexInput str st)));
      [rewrite hexInput_setBaseColor|]; reflexivity.
  - destruct (nth_error (palette st) n) as [color|]; [|reflexivity].
    unfold generateShades.
    destruct (paletteAt st (Z.of_nat n)); reflexivity.
  - unfold clickShade.
    destruct (selectedColor st) as [sel|]; [|reflexivity].
    destruct (paletteAt st sel) as [c|]; [|reflexivity].
    destruct (shades c) as [sh|]; [|reflexivity].
    destruct (shadeAt sh row k); reflexivity.
Qed.
